(** * Soccer player metrics ETL pipeline: aggregation and staged load

    A shallow embedding of [data-eng-project.py]:

    - the event aggregator [process_event_data], which folds StatsBomb event
      records (parsed JSON) into the module-global [offensive_metrics]
      table, one record at a time, inside a per-record [try]/[except];
    - the staged loader of [main], which moves the exported table into
      PostgreSQL through a staging table and a production table, with the
      commits and rollbacks of the psycopg2 connection.

    JSON numbers are modelled as integers; fractional numbers do not occur
    in the identifiers and flags the aggregator reads and are left out.
    Texts are held as their UTF-8 bytes. *)

From Stdlib Require Import ZArith Ascii String DecimalString DecimalPos DecimalZ.
From Stdlib Require Import List Permutation Lia.
From stdpp Require Import gmap strings list fin_maps.

Local Open Scope string_scope.
Local Open Scope Z_scope.
Local Set Warnings "-register-all".

(** ** Parsed JSON, as [json.loads] returns it *)

(** [JObj] lists the members in document order; as in [json.loads], a later
    duplicate of a member name overrides an earlier one (see [assoc]). *)
Inductive json : Type :=
| JNull
| JBool (b : bool)
| JInt (z : Z)
| JStr (s : string)
| JList (items : list json)
| JObj (fields : list (string * json)).

(** The exceptions the aggregator can meet, all subclasses of [Exception]. *)
Inductive exn : Type :=
| KeyError (k : string)
| TypeError
| AttributeError.

Fixpoint assoc (k : string) (fs : list (string * json)) : option json :=
  match fs with
  | [] => None
  | (k', v) :: rest =>
      match assoc k rest with
      | Some w => Some w
      | None => if String.eqb k k' then Some v else None
      end
  end.

(** [v[k]] for a string [k]: only a dict can be subscripted by a string. *)
Definition subscript (v : json) (k : string) : json + exn :=
  match v with
  | JObj fs =>
      match assoc k fs with
      | Some w => inl w
      | None => inr (KeyError k)
      end
  | _ => inr TypeError
  end.

(** [v.get(k, dflt)]: only a dict has the method [get]. *)
Definition py_get (v : json) (k : string) (dflt : json) : json + exn :=
  match v with
  | JObj fs => inl (default dflt (assoc k fs))
  | _ => inr AttributeError
  end.

(** Truth value of a Python object, as [if x] and [not x] test it. *)
Definition truthy (v : json) : bool :=
  match v with
  | JNull => false
  | JBool b => b
  | JInt z => negb (z =? 0)
  | JStr s => negb (String.eqb s "")
  | JList l => match l with [] => false | _ => true end
  | JObj fs => match fs with [] => false | _ => true end
  end.

(** [v == s] for a string literal [s]. *)
Definition py_eq_str (v : json) (s : string) : bool :=
  match v with
  | JStr s' => String.eqb s' s
  | _ => false
  end.

(** ** Keys of the metrics table *)

(** A dict key is a hashable object up to [==]: [True] and [1] are one key,
    as are [False] and [0]; [None] is hashable too. *)
Inductive key : Type :=
| KNone
| KNum (z : Z)
| KStr (s : string).

#[global] Instance key_eq_dec : EqDecision key.
Proof. solve_decision. Defined.

#[global] Instance key_countable : Countable key.
Proof.
  refine (inj_countable'
    (fun k => match k with
              | KNone => inl tt
              | KNum z => inr (inl z)
              | KStr s => inr (inr s)
              end)
    (fun x => match x with
              | inl _ => KNone
              | inr (inl z) => KNum z
              | inr (inr s) => KStr s
              end) _).
  intros []; reflexivity.
Defined.

(** [hash(v)]: lists and dicts are unhashable. *)
Definition py_hash (v : json) : key + exn :=
  match v with
  | JNull => inl KNone
  | JBool b => inl (KNum (if b then 1 else 0))
  | JInt z => inl (KNum z)
  | JStr s => inl (KStr s)
  | JList _ | JObj _ => inr TypeError
  end.

(** [v in {s1, s2, ...}] for a set of string literals: the lookup hashes
    [v] first. *)
Definition py_in_strs (v : json) (ss : list string) : bool + exn :=
  match py_hash v with
  | inl _ => inl (existsb (py_eq_str v) ss)
  | inr e => inr e
  end.

(** ** The metrics table *)

Record entry : Type := mk_entry {
  name : json;
  goals : Z;
  assists : Z;
  shots : Z;
  shots_on_target : Z;
  dribbles_completed : Z;
  key_passes : Z;
  crosses : Z
}.

(** The factory of the [defaultdict]. *)
Definition default_entry : entry :=
  mk_entry JNull 0 0 0 0 0 0 0.

Abbreviation table := (gmap key entry).

(** [offensive_metrics] as the module creates it. *)
Definition offensive_metrics : table := ∅.

Definition set_name (v : json) (e : entry) : entry :=
  mk_entry v (goals e) (assists e) (shots e) (shots_on_target e)
           (dribbles_completed e) (key_passes e) (crosses e).
Definition add_goals (n : Z) (e : entry) : entry :=
  mk_entry (name e) (goals e + n) (assists e) (shots e) (shots_on_target e)
           (dribbles_completed e) (key_passes e) (crosses e).
Definition add_assists (n : Z) (e : entry) : entry :=
  mk_entry (name e) (goals e) (assists e + n) (shots e) (shots_on_target e)
           (dribbles_completed e) (key_passes e) (crosses e).
Definition add_shots (n : Z) (e : entry) : entry :=
  mk_entry (name e) (goals e) (assists e) (shots e + n) (shots_on_target e)
           (dribbles_completed e) (key_passes e) (crosses e).
Definition add_shots_on_target (n : Z) (e : entry) : entry :=
  mk_entry (name e) (goals e) (assists e) (shots e) (shots_on_target e + n)
           (dribbles_completed e) (key_passes e) (crosses e).
Definition add_dribbles_completed (n : Z) (e : entry) : entry :=
  mk_entry (name e) (goals e) (assists e) (shots e) (shots_on_target e)
           (dribbles_completed e + n) (key_passes e) (crosses e).
Definition add_key_passes (n : Z) (e : entry) : entry :=
  mk_entry (name e) (goals e) (assists e) (shots e) (shots_on_target e)
           (dribbles_completed e) (key_passes e + n) (crosses e).
Definition add_crosses (n : Z) (e : entry) : entry :=
  mk_entry (name e) (goals e) (assists e) (shots e) (shots_on_target e)
           (dribbles_completed e) (key_passes e) (crosses e + n).

(** ** Statements: state and exceptions *)

(** A statement runs on a state and either completes with a value or
    raises; the state it leaves behind is kept in both cases. *)
Definition stmt (S E A : Type) : Type := S -> S * (A + E).

Definition ret {S E A} (a : A) : stmt S E A := fun s => (s, inl a).

Definition bind {S E A B} (m : stmt S E A) (f : A -> stmt S E B)
  : stmt S E B :=
  fun s =>
    match m s with
    | (s', inl a) => f a s'
    | (s', inr e) => (s', inr e)
    end.

(** An expression that reads no state. *)
Definition lift {S E A} (r : A + E) : stmt S E A := fun s => (s, r).

(** [try: body except Exception as e: handler(e)] *)
Definition try_except {S E} (body : stmt S E unit)
  (handler : E -> stmt S E unit) : stmt S E unit :=
  fun s =>
    match body s with
    | (s', inl _) => (s', inl tt)
    | (s', inr e) => handler e s'
    end.

(** [try: body finally: cleanup] *)
Definition try_finally {S E} (body : stmt S E unit)
  (cleanup : stmt S E unit) : stmt S E unit :=
  fun s =>
    match body s with
    | (s', inl _) => cleanup s'
    | (s', inr e) =>
        match cleanup s' with
        | (s'', inl _) => (s'', inr e)
        | (s'', inr e') => (s'', inr e')
        end
    end.

Definition when {S E} (b : bool) (m : stmt S E unit) : stmt S E unit :=
  if b then m else ret tt.

Notation "x <- m ;; k" := (bind m (fun x => k))
  (at level 100, m at next level, right associativity).
Notation "m ;;; k" := (bind m (fun _ => k))
  (at level 100, right associativity).

(** Statements of the aggregator run on the global table. *)
Abbreviation M := (stmt table exn).

(** [offensive_metrics[k]]: the entry of [k], which the [defaultdict]
    creates from its factory when [k] is missing. *)
Definition getitem (k : key) : M entry :=
  fun t =>
    match t !! k with
    | Some e => (t, inl e)
    | None => (<[k := default_entry]> t, inl default_entry)
    end.

(** [offensive_metrics[k][field] = ...]: fetch the entry and mutate it in
    place. *)
Definition update (k : key) (f : entry -> entry) : M unit :=
  e <- getitem k ;;
  fun t => (<[k := f e]> t, inl tt).

(** [event.get(a, {}).get(b)] *)
Definition get2 (event : json) (a b : string) : json + exn :=
  match py_get event a (JObj []) with
  | inl x => py_get x b JNull
  | inr e => inr e
  end.

(** [event.get(a, {}).get(b, {}).get(c)] *)
Definition get3 (event : json) (a b c : string) : json + exn :=
  match py_get event a (JObj []) with
  | inl x =>
      match py_get x b (JObj []) with
      | inl y => py_get y c JNull
      | inr e => inr e
      end
  | inr e => inr e
  end.

(** ** [process_event_data] *)

(** The body of the [try] block for one event (lines 51-83). *)
Definition process_event_body (event : json) : M unit :=
  ty <- lift (subscript event "type") ;;
  event_type <- lift (subscript ty "name") ;;
  player_id <- lift (get2 event "player" "id") ;;
  player_name <- lift (get2 event "player" "name") ;;
  if negb (truthy player_id) then ret tt
  else
    k <- lift (py_hash player_id) ;;
    update k (set_name player_name) ;;;
    when (py_eq_str event_type "Shot")
      (update k (add_shots 1) ;;;
       o1 <- lift (get3 event "shot" "outcome" "name") ;;
       when (py_eq_str o1 "Goal") (update k (add_goals 1)) ;;;
       o2 <- lift (get3 event "shot" "outcome" "name") ;;
       on_target <- lift (py_in_strs o2 ["Goal"; "Saved"]) ;;
       when on_target (update k (add_shots_on_target 1))) ;;;
    when (py_eq_str event_type "Pass")
      (a <- lift (get2 event "pass" "goal_assist") ;;
       when (truthy a) (update k (add_assists 1)) ;;;
       s <- lift (get2 event "pass" "shot_assist") ;;
       when (truthy s) (update k (add_key_passes 1)) ;;;
       c <- lift (get2 event "pass" "cross") ;;
       when (truthy c) (update k (add_crosses 1))) ;;;
    when (py_eq_str event_type "Dribble")
      (o <- lift (get3 event "dribble" "outcome" "name") ;;
       when (py_eq_str o "Complete") (update k (add_dribbles_completed 1))).

(** What the [except] clause prints: the event and the error. *)
Definition report : Type := json * exn.

(** One turn of the loop: the [try] body, and the [except Exception]
    handler that prints and continues. *)
Definition process_event (t : table) (event : json) : table * list report :=
  match process_event_body event t with
  | (t', inl _) => (t', [])
  | (t', inr e) => (t', [(event, e)])
  end.

(** The [for] loop over the events of one file. *)
Fixpoint process_events (t : table) (events : list json)
  : table * list report :=
  match events with
  | [] => (t, [])
  | event :: rest =>
      let '(t1, r1) := process_event t event in
      let '(t2, r2) := process_events t1 rest in
      (t2, (r1 ++ r2)%list)
  end.

(** Iterating a Python object, as [for event in file_data.json()] does:
    a list yields its items, a dict its keys (each once, in insertion
    order), a string its characters; anything else is not iterable. *)
Fixpoint dict_keys (fs : list (string * json)) : list string :=
  match fs with
  | [] => []
  | (k, _) :: rest =>
      k :: List.filter (fun k' => negb (String.eqb k k')) (dict_keys rest)
  end.

(** A byte that continues a character of a UTF-8 text ([10xxxxxx]). *)
Definition is_continuation (a : ascii) : bool :=
  match a with
  | Ascii _ _ _ _ _ _ b6 b7 => b7 && negb b6
  end.

(** The characters of a text held as UTF-8 bytes: a byte and the
    continuation bytes after it are one character. *)
Fixpoint chars (s : string) : list string :=
  match s with
  | EmptyString => []
  | String a rest =>
      match chars rest with
      | String b next :: more =>
          if is_continuation b then String a (String b next) :: more
          else String a EmptyString :: String b next :: more
      | tail => String a EmptyString :: tail
      end
  end.

Definition py_iter (v : json) : list json + exn :=
  match v with
  | JList items => inl items
  | JObj fs => inl (List.map JStr (dict_keys fs))
  | JStr s => inl (List.map JStr (chars s))
  | JNull | JBool _ | JInt _ => inr TypeError
  end.

(** How a call of [process_event_data] ends: it returns, or an exception
    leaves it; either way the global table and the printed reports stay. *)
Inductive outcome : Type :=
| Returned (t : table) (out : list report)
| Unhandled (t : table) (out : list report) (e : exn).

(** [process_event_data(file_data)], on the parsed body of the file. *)
Definition process_event_data (file_json : json) (t : table) : outcome :=
  match py_iter file_json with
  | inr e => Unhandled t [] e
  | inl events =>
      let '(t', out) := process_events t events in Returned t' out
  end.

(** ** Observers used in the statements *)

(** The table after one event, and after a sequence of events. *)
Definition step (t : table) (event : json) : table :=
  fst (process_event t event).
Definition run (t : table) (events : list json) : table :=
  fst (process_events t events).

(** [event["type"]["name"]] (line 51). *)
Definition event_type_of (event : json) : json + exn :=
  match subscript event "type" with
  | inl ty => subscript ty "name"
  | inr e => inr e
  end.

(** The table key an event is counted under: the value of line 52 when it
    passes the guard of line 55 and can index the table on line 58. *)
Definition player_key (event : json) : option key :=
  match get2 event "player" "id" with
  | inl v =>
      if truthy v then
        match py_hash v with
        | inl k => Some k
        | inr _ => None
        end
      else None
  | inr _ => None
  end.

(** What reading [offensive_metrics[k]] gives: the stored entry, or a fresh
    one from the factory. *)
Definition entry_at (t : table) (k : key) : entry :=
  default default_entry (t !! k).

(** The seven counters of an entry, in the order of the factory. *)
Definition counters_of (e : entry) : list Z :=
  [goals e; assists e; shots e; shots_on_target e;
   dribbles_completed e; key_passes e; crosses e].

(** Every counter of every entry of the table is non-negative. *)
Definition all_nonneg (t : table) : Prop :=
  forall k e, t !! k = Some e -> Forall (fun c => 0 <= c) (counters_of e).

(** Two tables with the same players and the same counters for each. *)
Definition same_counters (t t' : table) : Prop :=
  forall k, counters_of <$> (t !! k) = counters_of <$> (t' !! k).

(** ** The store: PostgreSQL behind a psycopg2 connection *)

Definition STAGING_TABLE_NAME : string := "player_offensive_metrics_staging".
Definition PROD_TABLE_NAME : string := "player_offensive_metrics_prod".

(** A cell of a [VARCHAR(255)] column: a text, or NULL. *)
Abbreviation cell := (option string).

(** A table of the database. [create_table] declares every column as
    [VARCHAR(255)], so a table is its column names and its rows of cells. *)
Record relation : Type := mk_relation {
  columns : list string;
  rows : list (list cell)
}.

Abbreviation database := (gmap string relation).

(** The errors of the load: what the server answers to a statement, and
    the [OSError] of writing the CSV file. *)
Inductive error : Type :=
| InFailedSqlTransaction
| UndefinedTable (table_name : string)
| UndefinedColumn (column : string)
| TooManyExpressions
| InvalidTextRepresentation (text : string)
| NumericValueOutOfRange
| BadCopyFileFormat
| UndefinedFile
| OSError.

(** The lines [main] prints while loading. *)
Inductive message : Type :=
| CopiedOk
| CopyError (e : error)
| InsertedOk
| InsertError (e : error)
| OuterError (e : error).

(** A connection that is not in autocommit mode: statements run in a
    transaction on [working]; [committed] is what the server keeps. Once a
    statement has failed the transaction is aborted and the server refuses
    every statement until the rollback. [printed] is the console. *)
Record session : Type := mk_session {
  committed : database;
  working : database;
  aborted : bool;
  printed : list message
}.

Abbreviation DB := (stmt session error).

(** The session of a connection just opened on database [db]. *)
Definition connect (db : database) : session :=
  mk_session db db false [].

(** [cursor.execute(sql)]: a failing statement changes nothing and aborts
    the transaction. *)
Definition execute (sql : database -> database + error) : DB unit :=
  fun s =>
    if aborted s then (s, inr InFailedSqlTransaction)
    else
      match sql (working s) with
      | inl db => (mk_session (committed s) db false (printed s), inl tt)
      | inr e =>
          (mk_session (committed s) (working s) true (printed s), inr e)
      end.

(** [conn.rollback()] *)
Definition rollback : DB unit :=
  fun s => (mk_session (committed s) (committed s) false (printed s), inl tt).

(** [conn.commit()]: the server ends an aborted transaction by a rollback. *)
Definition commit : DB unit :=
  fun s =>
    if aborted s then rollback s
    else (mk_session (working s) (working s) false (printed s), inl tt).

(** [conn.close()]: work that was not committed is discarded. *)
Definition close : DB unit := rollback.

Definition print (m : message) : DB unit :=
  fun s =>
    (mk_session (committed s) (working s) (aborted s)
                (printed s ++ [m])%list, inl tt).

(** [DROP TABLE IF EXISTS name] *)
Definition sql_drop (table_name : string) (db : database)
  : database + error :=
  inl (delete table_name db).

(** [CREATE TABLE IF NOT EXISTS name ("c1" VARCHAR(255), ...)] *)
Definition sql_create (table_name : string) (cols : list string)
  (db : database) : database + error :=
  match db !! table_name with
  | Some _ => inl db
  | None => inl (<[table_name := mk_relation cols []]> db)
  end.

(** A field of a CSV file as [COPY ... CSV] reads it: an empty unquoted
    field is NULL. *)
Definition csv_cell (s : string) : cell :=
  if String.eqb s "" then None else Some s.

(** A line with one field per column, each of at most 255 characters. (A
    longer field whose excess is blanks, which the server would cut, is
    refused here.) *)
Definition fits (width : nat) (line : list string) : bool :=
  (length line =? width)%nat
  && forallb (fun f => (length (chars f) <=? 255)%nat) line.

(** [COPY name FROM 'path' WITH DELIMITER ',' CSV HEADER]: the server opens
    the file at [path] itself; [file] is what it finds there, if anything,
    after the header line. Every line needs one field per column, each
    within the column width. *)
Definition sql_copy (table_name : string) (file : option (list (list string)))
  (db : database) : database + error :=
  match db !! table_name with
  | None => inr (UndefinedTable table_name)
  | Some r =>
      match file with
      | None => inr UndefinedFile
      | Some lines =>
          if forallb (fits (length (columns r))) lines then
            inl (<[table_name :=
                     mk_relation (columns r)
                       (rows r ++ List.map (List.map csv_cell) lines)%list]> db)
          else inr BadCopyFileFormat
      end
  end.

(** Text input of [int4]: blanks, an optional sign, decimal digits. This
    is the syntax every server version reads; from version 16 on the
    server also reads the [0x], [0o] and [0b] notations and underscores
    between digits, which are refused here. *)
Definition is_blank (a : ascii) : bool :=
  Ascii.eqb a " "%char || Ascii.eqb a "009"%char || Ascii.eqb a "010"%char
  || Ascii.eqb a "011"%char || Ascii.eqb a "012"%char
  || Ascii.eqb a "013"%char.

Fixpoint drop_blanks (l : list ascii) : list ascii :=
  match l with
  | a :: rest => if is_blank a then drop_blanks rest else l
  | [] => []
  end.

Definition trim (s : string) : string :=
  string_of_list_ascii
    (List.rev (drop_blanks (List.rev (drop_blanks (list_ascii_of_string s))))).

Definition pg_int4_in (s : string) : Z + error :=
  let digits :=
    match trim s with
    | String a rest =>
        if Ascii.eqb a "+"%char then
          option_map Decimal.Pos (DecimalString.NilZero.uint_of_string rest)
        else DecimalString.NilZero.int_of_string (String a rest)
    | EmptyString => None
    end in
  match digits with
  | Some d =>
      let z := Z.of_int d in
      if (- 2 ^ 31 <=? z) && (z <? 2 ^ 31) then inl z
      else inr NumericValueOutOfRange
  | None => inr (InvalidTextRepresentation s)
  end.

(** [c::int] stored into a [VARCHAR] column: the text is read as an
    integer and the integer written back as text. *)
Definition cast_int (c : cell) : cell + error :=
  match c with
  | None => inl None
  | Some s =>
      match pg_int4_in s with
      | inl z => inl (Some (DecimalString.NilZero.string_of_int (Z.to_int z)))
      | inr e => inr e
      end
  end.

Fixpoint index_of (c : string) (cols : list string) : option nat :=
  match cols with
  | [] => None
  | c' :: rest =>
      if String.eqb c c' then Some O else option_map S (index_of c rest)
  end.

(** The select list of [insert_into_prod_table]: a column name and
    whether it is cast to [int]. *)
Definition select_list : list (string * bool) :=
  [("player_id", false); ("name", false); ("goals", true);
   ("assists", true); ("shots", true); ("shots_on_target", true);
   ("dribbles_completed", true); ("key_passes", true); ("crosses", true)].

(** Resolve the select list against the columns of the source table. *)
Fixpoint resolve (sel : list (string * bool)) (cols : list string)
  : list (nat * bool) + error :=
  match sel with
  | [] => inl []
  | (c, as_int) :: rest =>
      match index_of c cols with
      | None => inr (UndefinedColumn c)
      | Some i =>
          match resolve rest cols with
          | inl r => inl ((i, as_int) :: r)
          | inr e => inr e
          end
      end
  end.

Fixpoint select_row (sel : list (nat * bool)) (row : list cell)
  : list cell + error :=
  match sel with
  | [] => inl []
  | (i, as_int) :: rest =>
      let c := default None (row !! i) in
      match (if as_int then cast_int c else inl c) with
      | inr e => inr e
      | inl v =>
          match select_row rest row with
          | inl r => inl (v :: r)
          | inr e => inr e
          end
      end
  end.

Fixpoint select_rows (sel : list (nat * bool)) (rs : list (list cell))
  : list (list cell) + error :=
  match rs with
  | [] => inl []
  | row :: rest =>
      match select_row sel row with
      | inr e => inr e
      | inl r =>
          match select_rows sel rest with
          | inl rs' => inl (r :: rs')
          | inr e => inr e
          end
      end
  end.

(** Columns of the target beyond the select list are left NULL. *)
Definition pad (width : nat) (row : list cell) : list cell :=
  (row ++ List.repeat None (width - length row))%list.

(** [INSERT INTO prod SELECT player_id, name, goals::int, ... FROM staging]:
    all rows are inserted, or the statement fails and inserts none. *)
Definition sql_insert_select (staging_table prod_table : string)
  (db : database) : database + error :=
  match db !! prod_table with
  | None => inr (UndefinedTable prod_table)
  | Some p =>
      match db !! staging_table with
      | None => inr (UndefinedTable staging_table)
      | Some s =>
          match resolve select_list (columns s) with
          | inr e => inr e
          | inl sel =>
              if (length (columns p) <? length select_list)%nat
              then inr TooManyExpressions
              else
                match select_rows sel (rows s) with
                | inr e => inr e
                | inl new_rows =>
                    inl (<[prod_table :=
                             mk_relation (columns p)
                               (rows p ++
                                List.map (pad (length (columns p))) new_rows)%list]>
                           db)
                end
          end
      end
  end.

Definition drop_table (table_name : string) : DB unit :=
  execute (sql_drop table_name).

Definition create_table (table_name : string) (cols : list string)
  : DB unit :=
  execute (sql_create table_name cols).

Definition insert_into_prod_table (staging_table prod_table : string)
  : DB unit :=
  execute (sql_insert_select staging_table prod_table).

(** What the run meets outside the program: whether [df.to_csv] can write
    its file, and whether the server can open that file. *)
Record environment : Type := mk_environment {
  csv_written : bool;
  server_reads_csv : bool
}.

(** The load of [main] (lines 151-192) for the exported frame: its column
    names and its rows as [to_csv] writes them. *)
Definition main_load (env : environment) (df_columns : list string)
  (df_rows : list (list string)) : DB unit :=
  try_finally
    (try_except
       (drop_table STAGING_TABLE_NAME ;;;
        create_table STAGING_TABLE_NAME df_columns ;;;
        lift (if csv_written env then inl tt else inr OSError) ;;;
        try_except
          (execute (sql_copy STAGING_TABLE_NAME
                      (if server_reads_csv env then Some df_rows else None)) ;;;
           print CopiedOk ;;;
           drop_table PROD_TABLE_NAME ;;;
           create_table PROD_TABLE_NAME df_columns ;;;
           commit)
          (fun e => print (CopyError e) ;;; rollback) ;;;
        try_except
          (insert_into_prod_table STAGING_TABLE_NAME PROD_TABLE_NAME ;;;
           print InsertedOk ;;;
           commit)
          (fun e => print (InsertError e) ;;; rollback))
       (fun e => print (OuterError e)))
    close.

(** The database and the console after a run that starts on [db]. *)
Definition load_result (env : environment) (df_columns : list string)
  (df_rows : list (list string)) (db : database)
  : database * list message :=
  let s := fst (main_load env df_columns df_rows (connect db)) in
  (committed s, printed s).

(** ** Increments *)

(** The amounts a piece of the loop body adds to the seven counters. *)
Record delta : Type := mk_delta {
  d_goals : Z;
  d_assists : Z;
  d_shots : Z;
  d_shots_on_target : Z;
  d_dribbles_completed : Z;
  d_key_passes : Z;
  d_crosses : Z
}.

Definition bump (d : delta) (e : entry) : entry :=
  mk_entry (name e) (goals e + d_goals d) (assists e + d_assists d)
           (shots e + d_shots d) (shots_on_target e + d_shots_on_target d)
           (dribbles_completed e + d_dribbles_completed d)
           (key_passes e + d_key_passes d) (crosses e + d_crosses d).

Definition d_zero : delta := mk_delta 0 0 0 0 0 0 0.

Definition d_plus (a b : delta) : delta :=
  mk_delta (d_goals a + d_goals b) (d_assists a + d_assists b)
           (d_shots a + d_shots b)
           (d_shots_on_target a + d_shots_on_target b)
           (d_dribbles_completed a + d_dribbles_completed b)
           (d_key_passes a + d_key_passes b) (d_crosses a + d_crosses b).

Definition d_list (d : delta) : list Z :=
  [d_goals d; d_assists d; d_shots d; d_shots_on_target d;
   d_dribbles_completed d; d_key_passes d; d_crosses d].

Definition d_nonneg (d : delta) : Prop :=
  Forall (fun c => 0 <= c) (d_list d).

(** [m] leaves the table as it is but for the entry of [k], to which it
    adds [d], and ends with [r], whatever the table it starts on, once [k]
    has an entry. *)
Definition Acts {A} (k : key) (m : M A) (d : delta) (r : A + exn) : Prop :=
  forall (t : table) e,
    t !! k = Some e -> m t = (<[k := bump d e]> t, r).

(** [m] only adds non-negative amounts to the counters of [k]. *)
Definition Local {A} (k : key) (m : M A) : Prop :=
  exists d r, d_nonneg d /\ Acts k m d r.

(** The keys an event can be counted under: the hashable objects that are
    true. *)
Definition key_ok (k : key) : Prop :=
  k <> KNone /\ k <> KNum 0 /\ k <> KStr "".

(** The event without its [player] member. *)
Definition without_player (event : json) : json :=
  match event with
  | JObj fs =>
      JObj (List.filter (fun kv => negb (String.eqb (fst kv) "player")) fs)
  | _ => event
  end.

(** ** Sample events and stores *)

Definition sample_player (i : Z) (n : string) : string * json :=
  ("player", JObj [("id", JInt i); ("name", JStr n)]).

Definition sample_type (n : string) : string * json :=
  ("type", JObj [("name", JStr n)]).

Definition sample_outcome (n : string) : json :=
  JObj [("outcome", JObj [("name", JStr n)])].

(** A goal by player 1. *)
Definition goal_shot : json :=
  JObj [sample_type "Shot"; sample_player 1 "A";
        ("shot", sample_outcome "Goal")].

(** A pass of player 1 that assists a goal. *)
Definition assist_pass : json :=
  JObj [sample_type "Pass"; sample_player 1 "A";
        ("pass", JObj [("goal_assist", JBool true)])].

(** A completed dribble of player 2. *)
Definition complete_dribble : json :=
  JObj [sample_type "Dribble"; sample_player 2 "B";
        ("dribble", sample_outcome "Complete")].

(** A whistle: no player. *)
Definition whistle : json := JObj [sample_type "Half End"].

(** A shot by a player whose id is 0. *)
Definition shot_by_zero : json :=
  JObj [sample_type "Shot"; sample_player 0 "Z";
        ("shot", sample_outcome "Goal")].


(** A second spelling of player 1's name. *)
Definition renamed_pass : json :=
  JObj [sample_type "Pass"; sample_player 1 "A. Player"].

(** The columns of the exported frame. *)
Definition export_columns : list string :=
  ["player_id"; "name"; "goals"; "assists"; "shots"; "shots_on_target";
   "dribbles_completed"; "key_passes"; "crosses"].

(** The row of player 7 that the previous run loaded. *)
Definition old_row : list cell :=
  [Some "7"; Some "A"; Some "1"; Some "0"; Some "2"; Some "1"; Some "0";
   Some "0"; Some "0"].

(** The database a successful previous run left. *)
Definition previous_db : database :=
  <[STAGING_TABLE_NAME := mk_relation export_columns [old_row]]>
    (<[PROD_TABLE_NAME := mk_relation export_columns [old_row]]> ∅).

(** A line of this run's CSV file, and one whose [goals] is no number. *)
Definition new_line : list string :=
  ["8"; "B"; "3"; "1"; "4"; "3"; "0"; "2"; "1"].
Definition bad_line : list string :=
  ["9"; "C"; "x"; "0"; "2"; "1"; "0"; "0"; "0"].

(** A line whose [goals] is no literal of any kind. *)
Definition alien_line : list string :=
  ["9"; "C"; "n/a"; "0"; "2"; "1"; "0"; "0"; "0"].

(** ** Counting rules, event by event *)

(** [event["type"]["name"] == ty] (lines 60, 70, 78), false when line 51
    raises. *)
Definition has_type (ty : string) (event : json) : bool :=
  match event_type_of event with
  | inl v => py_eq_str v ty
  | inr _ => false
  end.

(** The loop body reaches line 58 with the key [k]: line 51 reads a type
    and the player id of the event gives [k]. *)
Definition counted (k : key) (event : json) : bool :=
  match event_type_of event with
  | inl _ => bool_decide (player_key event = Some k)
  | inr _ => false
  end.

(** [event.get(member, {}).get("outcome", {}).get("name")] is one of
    [names] (lines 62, 64, 80); false when the expression raises. *)
Definition outcome_in (member : string) (names : list string)
  (event : json) : bool :=
  match get3 event member "outcome" "name" with
  | inl v => existsb (py_eq_str v) names
  | inr _ => false
  end.

(** [event.get("pass", {}).get(flag)] is true (lines 71, 73, 75); false
    when the expression raises. *)
Definition flag_set (flag : string) (event : json) : bool :=
  match get2 event "pass" flag with
  | inl v => truthy v
  | inr _ => false
  end.

(** The amounts lines 60-83 add for an event that is counted. *)
Definition event_delta (event : json) : delta :=
  if has_type "Shot" event then
    mk_delta (Z.b2z (outcome_in "shot" ["Goal"] event)) 0 1
             (Z.b2z (outcome_in "shot" ["Goal"; "Saved"] event)) 0 0 0
  else if has_type "Pass" event then
    mk_delta 0 (Z.b2z (flag_set "goal_assist" event)) 0 0 0
             (Z.b2z (flag_set "shot_assist" event))
             (Z.b2z (flag_set "cross" event))
  else if has_type "Dribble" event then
    mk_delta 0 0 0 0 (Z.b2z (outcome_in "dribble" ["Complete"] event)) 0 0
  else d_zero.

(** The number of events of a sequence that satisfy [p]. *)
Definition tally (p : json -> bool) (events : list json) : Z :=
  Z.of_nat (length (List.filter p events)).

Definition is_shot (k : key) (event : json) : bool :=
  counted k event && has_type "Shot" event.
Definition is_goal (k : key) (event : json) : bool :=
  is_shot k event && outcome_in "shot" ["Goal"] event.
Definition is_on_target (k : key) (event : json) : bool :=
  is_shot k event && outcome_in "shot" ["Goal"; "Saved"] event.
Definition is_pass (k : key) (event : json) : bool :=
  counted k event && has_type "Pass" event.
Definition is_assist (k : key) (event : json) : bool :=
  is_pass k event && flag_set "goal_assist" event.
Definition is_key_pass (k : key) (event : json) : bool :=
  is_pass k event && flag_set "shot_assist" event.
Definition is_cross (k : key) (event : json) : bool :=
  is_pass k event && flag_set "cross" event.
Definition is_completed_dribble (k : key) (event : json) : bool :=
  counted k event && has_type "Dribble" event
  && outcome_in "dribble" ["Complete"] event.

(** The tallies of a player, in the order of the counters. *)
Definition tallies (k : key) (events : list json) : list Z :=
  [tally (is_goal k) events; tally (is_assist k) events;
   tally (is_shot k) events; tally (is_on_target k) events;
   tally (is_completed_dribble k) events; tally (is_key_pass k) events;
   tally (is_cross k) events].

(** Goals are shots on target, and shots on target are shots. *)
Definition shot_chain (e : entry) : Prop :=
  goals e <= shots_on_target e /\ shots_on_target e <= shots e.

(** ** The loop of [main] over the event files (lines 132-135) *)

(** What the loop prints: the line of [main] for each file, and the
    reports of [process_event_data]. *)
Inductive console_line : Type :=
| Processing (url : json)
| Reported (r : report).

(** How the loop ends: all files processed, or an exception that nothing
    in [main] handles. *)
Inductive driver_outcome : Type :=
| Completed (t : table) (out : list console_line)
| Aborted (t : table) (out : list console_line) (e : exn).

(** The loop over the entries of the listing. [get url] stands for the
    parsed body of the response of [requests.get(url)]; runs in which the
    request or the decoding of a body raises are not modelled. *)
Fixpoint aggregate_entries (get : json -> json) (t : table)
  (entries : list json) : driver_outcome :=
  match entries with
  | [] => Completed t []
  | res :: rest =>
      match subscript res "download_url" with
      | inr e => Aborted t [] e
      | inl url =>
          match process_event_data (get url) t with
          | Unhandled t1 out e =>
              Aborted t1 (Processing url :: List.map Reported out) e
          | Returned t1 out =>
              match aggregate_entries get t1 rest with
              | Completed t2 out2 =>
                  Completed t2
                    (Processing url :: List.map Reported out ++ out2)%list
              | Aborted t2 out2 e =>
                  Aborted t2
                    (Processing url :: List.map Reported out ++ out2)%list e
              end
          end
      end
  end.

(** [for res in dir_data: ...], on the parsed listing. *)
Definition aggregate (get : json -> json) (dir_data : json) (t : table)
  : driver_outcome :=
  match py_iter dir_data with
  | inr e => Aborted t [] e
  | inl entries => aggregate_entries get t entries
  end.

(** The events of the file of a listing entry, when the entry names a
    file and the body of the file can be iterated. *)
Definition events_of (get : json -> json) (res : json) : list json :=
  match subscript res "download_url" with
  | inl url =>
      match py_iter (get url) with
      | inl events => events
      | inr _ => []
      end
  | inr _ => []
  end.

Definition usable (get : json -> json) (res : json) : bool :=
  match subscript res "download_url" with
  | inl url =>
      match py_iter (get url) with
      | inl _ => true
      | inr _ => false
      end
  | inr _ => false
  end.

(** ** The text of [create_table] (lines 98-101) *)

(** The double quote. *)
Definition dquote : string := String "034"%char EmptyString.

(** [s.rstrip(c)] for a one-character [c]: [s] without the run of [c] at
    its end. *)
Fixpoint rstrip (c : ascii) (s : string) : string :=
  match s with
  | EmptyString => EmptyString
  | String a rest =>
      match rstrip c rest with
      | EmptyString =>
          if Ascii.eqb a c then EmptyString else String a EmptyString
      | String b r => String a (String b r)
      end
  end.

(** The statement [create_table] builds and hands to [cursor.execute]. *)
Definition create_table_sql (table_name : string) (cols : list string)
  : string :=
  let sql := "CREATE TABLE IF NOT EXISTS " ++ table_name ++ " (" in
  let sql :=
    fold_left
      (fun sql col => sql ++ dquote ++ col ++ dquote ++ " VARCHAR(255),")
      cols sql in
  rstrip ","%char sql ++ ")".

(** The declaration of one column. *)
Definition column_def (col : string) : string :=
  dquote ++ col ++ dquote ++ " VARCHAR(255)".

(** ** Frames and their promotion *)

(** The database once the bulk load has succeeded and the production
    table has been dropped and created again (line 173). *)
Definition staged (cols : list string) (lines : list (list string))
  (db : database) : database :=
  <[PROD_TABLE_NAME := mk_relation cols []]>
    (delete PROD_TABLE_NAME
       (<[STAGING_TABLE_NAME :=
            mk_relation cols (List.map (List.map csv_cell) lines)]>
          (delete STAGING_TABLE_NAME db))).

(** A field that the cast to [int] accepts: empty, or an [int4] numeral. *)
Definition numeric (s : string) : bool :=
  match cast_int (csv_cell s) with
  | inl _ => true
  | inr _ => false
  end.

(** A line of nine fields within the column width whose seven counters
    are numeric. *)
Definition promotable (line : list string) : bool :=
  fits (length export_columns) line && forallb numeric (skipn 2 line).

Definition canonical (s : string) : cell :=
  match cast_int (csv_cell s) with
  | inl c => c
  | inr _ => None
  end.

(** The production row of a line: id and name as loaded, the counters
    read as integers. *)
Definition promoted (line : list string) : list cell :=
  (List.map csv_cell (firstn 2 line)
   ++ List.map canonical (skipn 2 line))%list.

(** A character that an integer literal of some server version can
    hold: a digit, a sign, an underscore, a blank, or a letter of the
    hexadecimal, octal and binary notations. *)
Definition literal_char (a : ascii) : bool :=
  let n := nat_of_ascii a in
  is_blank a
  || ((48 <=? n) && (n <=? 57))%nat
  || ((97 <=? n) && (n <=? 102))%nat
  || ((65 <=? n) && (n <=? 70))%nat
  || existsb (Ascii.eqb a)
       ["+"; "-"; "_"; "x"; "X"; "o"; "O"; "b"; "B"]%char.

(** A field with a character that no integer literal holds. *)
Definition alien (s : string) : bool :=
  existsb (fun a => negb (literal_char a)) (list_ascii_of_string s).

(** The decimal text of an integer, as Python's [str] and [to_csv] write
    it. *)
Definition py_str_int (z : Z) : string :=
  NilZero.string_of_int (Z.to_int z).

(** A character that is no blank and no plus sign. *)
Definition plain (a : ascii) : Prop :=
  is_blank a = false /\ Ascii.eqb a "+"%char = false.

(** A table that already holds player 1. *)
Definition seeded : table :=
  {[ KNum 1 := mk_entry (JStr "Old") 1 0 2 1 0 0 0 ]}.

(** A shot of player 3 whose outcome name is a list. *)
Definition list_outcome_shot : json :=
  JObj [sample_type "Shot"; sample_player 3 "C";
        ("shot", JObj [("outcome", JObj [("name", JList [JInt 1])])])].

(** A pass of player 1 whose payload is a number. *)
Definition broken_pass : json :=
  JObj [sample_type "Pass"; sample_player 1 "A"; ("pass", JInt 1)].

(** A foul by player 5. *)
Definition foul : json :=
  JObj [sample_type "Foul Committed"; sample_player 5 "E"].

(** A listing entry, and a store of two event files. *)
Definition sample_entry (url : string) : json :=
  JObj [("download_url", JStr url)].

Definition sample_get (url : json) : json :=
  match url with
  | JStr "first.json" => JList [goal_shot; whistle]
  | JStr "second.json" => JList [assist_pass]
  | _ => JNull
  end.

(** ** Lemmas on entries and increments *)

Ltac split_foralls :=
  repeat match goal with
         | H : Forall _ (_ :: _) |- _ => apply Forall_cons_1 in H; destruct H
         end.

Ltac prove_foralls :=
  repeat (first [apply List.Forall_nil | apply List.Forall2_nil
                | apply List.Forall_cons; [lia|]
                | apply List.Forall2_cons; [lia|]]).

Lemma bump_zero e : bump d_zero e = e.
Proof. destruct e; unfold bump; simpl; f_equal; lia. Qed.

Lemma bump_plus a b e : bump b (bump a e) = bump (d_plus a b) e.
Proof. destruct e; unfold bump; simpl; f_equal; lia. Qed.

Lemma d_nonneg_zero : d_nonneg d_zero.
Proof. unfold d_nonneg, d_list; simpl; prove_foralls. Qed.

Lemma d_nonneg_plus a b : d_nonneg a -> d_nonneg b -> d_nonneg (d_plus a b).
Proof.
  unfold d_nonneg, d_list; simpl; intros Ha Hb.
  split_foralls; prove_foralls.
Qed.

Lemma counters_bump d e :
  counters_of (bump d e) = zip_with Z.add (counters_of e) (d_list d).
Proof. reflexivity. Qed.

Lemma counters_set_name v e : counters_of (set_name v e) = counters_of e.
Proof. reflexivity. Qed.

Lemma name_bump d e : name (bump d e) = name e.
Proof. reflexivity. Qed.

Lemma counters_bump_le d e :
  d_nonneg d -> Forall2 Z.le (counters_of e) (counters_of (bump d e)).
Proof.
  unfold d_nonneg, d_list, counters_of; simpl; intros H.
  split_foralls; prove_foralls.
Qed.

Lemma counters_bump_nonneg d e :
  d_nonneg d ->
  Forall (fun c => 0 <= c) (counters_of e) ->
  Forall (fun c => 0 <= c) (counters_of (bump d e)).
Proof.
  unfold d_nonneg, d_list, counters_of; simpl; intros H H'.
  split_foralls; prove_foralls.
Qed.

Lemma add_goals_bump n e :
  add_goals n e = bump (mk_delta n 0 0 0 0 0 0) e.
Proof. destruct e; unfold add_goals, bump; simpl; f_equal; lia. Qed.
Lemma add_assists_bump n e :
  add_assists n e = bump (mk_delta 0 n 0 0 0 0 0) e.
Proof. destruct e; unfold add_assists, bump; simpl; f_equal; lia. Qed.
Lemma add_shots_bump n e :
  add_shots n e = bump (mk_delta 0 0 n 0 0 0 0) e.
Proof. destruct e; unfold add_shots, bump; simpl; f_equal; lia. Qed.
Lemma add_shots_on_target_bump n e :
  add_shots_on_target n e = bump (mk_delta 0 0 0 n 0 0 0) e.
Proof. destruct e; unfold add_shots_on_target, bump; simpl; f_equal; lia. Qed.
Lemma add_dribbles_completed_bump n e :
  add_dribbles_completed n e = bump (mk_delta 0 0 0 0 n 0 0) e.
Proof.
  destruct e; unfold add_dribbles_completed, bump; simpl; f_equal; lia.
Qed.
Lemma add_key_passes_bump n e :
  add_key_passes n e = bump (mk_delta 0 0 0 0 0 n 0) e.
Proof. destruct e; unfold add_key_passes, bump; simpl; f_equal; lia. Qed.
Lemma add_crosses_bump n e :
  add_crosses n e = bump (mk_delta 0 0 0 0 0 0 n) e.
Proof. destruct e; unfold add_crosses, bump; simpl; f_equal; lia. Qed.

(** ** Lemmas on statements *)

Lemma update_spec k f (t : table) :
  update k f t = (<[k := f (entry_at t k)]> t, inl tt).
Proof.
  unfold update, bind, getitem, entry_at.
  destruct (t !! k) as [e|] eqn:E; simpl; [reflexivity|].
  by rewrite insert_insert_eq.
Qed.

Lemma entry_at_insert (t : table) k e : entry_at (<[k := e]> t) k = e.
Proof. unfold entry_at. by rewrite lookup_insert_eq. Qed.

Lemma entry_at_insert_ne (t : table) k k' e :
  k <> k' -> entry_at (<[k := e]> t) k' = entry_at t k'.
Proof. intros. unfold entry_at. by rewrite lookup_insert_ne. Qed.

Lemma entry_at_Some (t : table) k e : t !! k = Some e -> entry_at t k = e.
Proof. unfold entry_at. by intros ->. Qed.

Lemma acts_ret {A} k (a : A) : Acts k (ret a) d_zero (inl a).
Proof.
  intros t e H. unfold ret. by rewrite bump_zero, insert_id.
Qed.

Lemma acts_lift {A} k (r : A + exn) : Acts k (lift r) d_zero r.
Proof.
  intros t e H. unfold lift. by rewrite bump_zero, insert_id.
Qed.

Lemma acts_update k f d :
  (forall e, f e = bump d e) -> Acts k (update k f) d (inl tt).
Proof.
  intros Hf t e H. by rewrite update_spec, (entry_at_Some _ _ _ H), Hf.
Qed.

Lemma acts_bind {A B} k (m : M A) (f : A -> M B) d1 d2 a r :
  Acts k m d1 (inl a) -> Acts k (f a) d2 r ->
  Acts k (bind m f) (d_plus d1 d2) r.
Proof.
  intros Hm Hf t e H. unfold bind. rewrite (Hm t e H).
  rewrite (Hf _ (bump d1 e)) by apply lookup_insert_eq.
  by rewrite insert_insert_eq, bump_plus.
Qed.

Lemma acts_bind_raise {A B} k (m : M A) (f : A -> M B) d x :
  Acts k m d (inr x) -> Acts k (bind m f) d (inr x).
Proof. intros Hm t e H. unfold bind. by rewrite (Hm t e H). Qed.

Lemma local_ret {A} k (a : A) : Local k (ret a).
Proof. exists d_zero, (inl a). split; [apply d_nonneg_zero | apply acts_ret]. Qed.

Lemma local_lift {A} k (r : A + exn) : Local k (lift r).
Proof. exists d_zero, r. split; [apply d_nonneg_zero | apply acts_lift]. Qed.

Lemma local_bind {A B} k (m : M A) (f : A -> M B) :
  Local k m -> (forall a, Local k (f a)) -> Local k (bind m f).
Proof.
  intros (d1 & [a|x] & N1 & H1) Hf.
  - destruct (Hf a) as (d2 & r & N2 & H2).
    exists (d_plus d1 d2), r. split; [by apply d_nonneg_plus|].
    by eapply acts_bind.
  - exists d1, (inr x). split; [done | by apply acts_bind_raise].
Qed.

Lemma local_when k b (m : M unit) : Local k m -> Local k (when b m).
Proof. destruct b; [done | intros _; apply local_ret]. Qed.

Lemma local_update k f d :
  d_nonneg d -> (forall e, f e = bump d e) -> Local k (update k f).
Proof.
  intros N Hf. exists d, (inl tt). split; [done | by apply acts_update].
Qed.

Lemma bind_lift_inl {S E A B} (a : A) (f : A -> stmt S E B) :
  bind (lift (inl a)) f = f a.
Proof. reflexivity. Qed.

Lemma bind_lift_inr {S E A B} (x : E) (f : A -> stmt S E B) :
  bind (lift (inr x)) f = lift (inr x).
Proof. reflexivity. Qed.

Lemma local_add_goals k : Local k (update k (add_goals 1)).
Proof.
  apply (local_update _ _ (mk_delta 1 0 0 0 0 0 0));
    [unfold d_nonneg, d_list; simpl; prove_foralls | apply add_goals_bump].
Qed.
Lemma local_add_assists k : Local k (update k (add_assists 1)).
Proof.
  apply (local_update _ _ (mk_delta 0 1 0 0 0 0 0));
    [unfold d_nonneg, d_list; simpl; prove_foralls | apply add_assists_bump].
Qed.
Lemma local_add_shots k : Local k (update k (add_shots 1)).
Proof.
  apply (local_update _ _ (mk_delta 0 0 1 0 0 0 0));
    [unfold d_nonneg, d_list; simpl; prove_foralls | apply add_shots_bump].
Qed.
Lemma local_add_shots_on_target k :
  Local k (update k (add_shots_on_target 1)).
Proof.
  apply (local_update _ _ (mk_delta 0 0 0 1 0 0 0));
    [unfold d_nonneg, d_list; simpl; prove_foralls
    | apply add_shots_on_target_bump].
Qed.
Lemma local_add_dribbles_completed k :
  Local k (update k (add_dribbles_completed 1)).
Proof.
  apply (local_update _ _ (mk_delta 0 0 0 0 1 0 0));
    [unfold d_nonneg, d_list; simpl; prove_foralls
    | apply add_dribbles_completed_bump].
Qed.
Lemma local_add_key_passes k : Local k (update k (add_key_passes 1)).
Proof.
  apply (local_update _ _ (mk_delta 0 0 0 0 0 1 0));
    [unfold d_nonneg, d_list; simpl; prove_foralls | apply add_key_passes_bump].
Qed.
Lemma local_add_crosses k : Local k (update k (add_crosses 1)).
Proof.
  apply (local_update _ _ (mk_delta 0 0 0 0 0 0 1));
    [unfold d_nonneg, d_list; simpl; prove_foralls | apply add_crosses_bump].
Qed.

Create HintDb local_db.
#[local] Hint Resolve local_ret local_lift local_when local_add_goals
  local_add_assists local_add_shots local_add_shots_on_target
  local_add_dribbles_completed local_add_key_passes local_add_crosses
  : local_db.

Ltac solve_local :=
  repeat first [ solve [auto with local_db] | apply local_when
               | apply local_bind; [|intros ?] ].

(** ** One event *)

Lemma hash_truthy_ok v k : truthy v = true -> py_hash v = inl k -> key_ok k.
Proof.
  unfold key_ok. destruct v as [|[]|z|s|l|fs]; simpl; intros T H;
    try discriminate; inversion H; subst; clear H.
  - repeat split; discriminate.
  - apply negb_true_iff, Z.eqb_neq in T.
    repeat split; congruence.
  - apply negb_true_iff, String.eqb_neq in T.
    repeat split; congruence.
Qed.

Lemma player_key_Some event k :
  player_key event = Some k <->
  exists pid, get2 event "player" "id" = inl pid /\ truthy pid = true
              /\ py_hash pid = inl k.
Proof.
  unfold player_key. split.
  - destruct (get2 event "player" "id") as [pid|]; [|discriminate].
    destruct (truthy pid) eqn:T; [|discriminate].
    destruct (py_hash pid) eqn:H; [|discriminate].
    intros [= ->]. eauto.
  - intros (pid & -> & -> & ->). reflexivity.
Qed.

Lemma player_key_ok event k : player_key event = Some k -> key_ok k.
Proof.
  intros (pid & _ & T & H)%player_key_Some. by eapply hash_truthy_ok.
Qed.

(** The [try] body either leaves the table alone, or rewrites the name of
    one player and adds non-negative amounts to that player's counters;
    which of the two, the player, the amounts and the way the body ends
    depend on the event only. *)
Lemma body_cases event :
  (exists r, forall t, process_event_body event t = (t, r)) \/
  (exists k nm d r,
     player_key event = Some k /\
     get2 event "player" "name" = inl nm /\
     d_nonneg d /\
     forall t, process_event_body event t
               = (<[k := bump d (set_name nm (entry_at t k))]> t, r)).
Proof.
  unfold process_event_body, player_key.
  destruct (subscript event "type") as [ty|x];
    [rewrite bind_lift_inl | left; eexists; intros t; reflexivity].
  destruct (subscript ty "name") as [event_type|x];
    [rewrite bind_lift_inl | left; eexists; intros t; reflexivity].
  destruct (get2 event "player" "id") as [pid|x];
    [rewrite bind_lift_inl | left; eexists; intros t; reflexivity].
  destruct (get2 event "player" "name") as [nm|x];
    [rewrite bind_lift_inl | left; eexists; intros t; reflexivity].
  destruct (truthy pid); simpl;
    [| left; eexists; intros t; reflexivity].
  destruct (py_hash pid) as [k|x];
    [rewrite bind_lift_inl | left; eexists; intros t; reflexivity].
  right.
  match goal with
  | |- context [bind (update k (set_name nm)) (fun _ => ?rest)] =>
      assert (Local k rest) as (d & r & N & H) by solve_local
  end.
  exists k, nm, d, r. repeat split; try done.
  intros t. unfold bind at 1. rewrite update_spec.
  rewrite (H _ _ (lookup_insert_eq _ _ _)).
  by rewrite insert_insert_eq.
Qed.

Lemma get2_same_object event a b c v :
  get2 event a b = inl v -> exists w, get2 event a c = inl w.
Proof.
  unfold get2. destruct (py_get event a (JObj [])) as [x|]; [|discriminate].
  destruct x; simpl; try discriminate. eauto.
Qed.

Lemma event_type_of_inl event v :
  event_type_of event = inl v ->
  exists ty, subscript event "type" = inl ty /\ subscript ty "name" = inl v.
Proof.
  unfold event_type_of.
  destruct (subscript event "type") as [ty|]; [eauto | discriminate].
Qed.

(** Enter the loop body of an event that is counted under [k]: rewrite
    the reads of lines 51-53 and pass the guard of line 55. *)
Ltac enter_body Hty Hkey :=
  let ty := fresh "ty" in
  let pid := fresh "pid" in
  let nm := fresh "nm" in
  let E1 := fresh "E1" in
  let E2 := fresh "E2" in
  let P1 := fresh "P1" in
  let P2 := fresh "P2" in
  let T := fresh "T" in
  let H := fresh "H" in
  destruct (event_type_of_inl _ _ Hty) as (ty & E1 & E2);
  destruct (proj1 (player_key_Some _ _) Hkey) as (pid & P1 & T & H);
  destruct (get2_same_object _ _ _ "name" _ P1) as (nm & P2);
  unfold process_event_body;
  rewrite E1, bind_lift_inl, E2, bind_lift_inl, P1, bind_lift_inl,
    P2, bind_lift_inl, T;
  cbn [negb]; rewrite H, bind_lift_inl.

Lemma bind_ret {S E A B} (a : A) (f : A -> stmt S E B) :
  bind (ret a) f = f a.
Proof. reflexivity. Qed.

Lemma bind_assoc {S E A B C} (m : stmt S E A) (f : A -> stmt S E B)
  (g : B -> stmt S E C) s :
  bind (bind m f) g s = bind m (fun a => bind (f a) g) s.
Proof. unfold bind. by destruct (m s) as [s' [a|x]]. Qed.

Lemma bind_update {B} k f (g : unit -> M B) (t : table) :
  bind (update k f) g t = g tt (<[k := f (entry_at t k)]> t).
Proof. unfold bind at 1. by rewrite update_spec. Qed.

Lemma lift_apply {S E A} (r : A + E) (s : S) : lift r s = (s, r).
Proof. reflexivity. Qed.

Lemma ret_apply {S E A} (a : A) (s : S) : @ret S E A a s = (s, inl a).
Proof. reflexivity. Qed.

(** Run the updates of a loop body whose branches are known. *)
Ltac run_body :=
  repeat first
    [ rewrite bind_assoc
    | rewrite bind_update
    | rewrite update_spec
    | rewrite bind_lift_inl
    | rewrite bind_lift_inr
    | rewrite bind_ret
    | rewrite lift_apply
    | rewrite ret_apply
    | rewrite entry_at_insert
    | rewrite insert_insert_eq
    | progress cbn [when py_eq_str String.eqb Ascii.eqb Bool.eqb fst snd]
    | progress cbn beta ].

Lemma shot_body (t : table) event k :
  event_type_of event = inl (JStr "Shot") ->
  player_key event = Some k ->
  exists nm,
    get2 event "player" "name" = inl nm /\
    process_event_body event t =
      match get3 event "shot" "outcome" "name" with
      | inl o =>
          let e1 := add_shots 1 (set_name nm (entry_at t k)) in
          let e2 := if py_eq_str o "Goal" then add_goals 1 e1 else e1 in
          match py_in_strs o ["Goal"; "Saved"] with
          | inl true => (<[k := add_shots_on_target 1 e2]> t, inl tt)
          | inl false => (<[k := e2]> t, inl tt)
          | inr x => (<[k := e2]> t, inr x)
          end
      | inr x => (<[k := add_shots 1 (set_name nm (entry_at t k))]> t, inr x)
      end.
Proof.
  intros Hty Hkey. enter_body Hty Hkey. exists nm. split; [done|].
  run_body.
  destruct (get3 event "shot" "outcome" "name") as [o|x]; run_body;
    [|reflexivity].
  destruct (py_eq_str o "Goal"); run_body;
    destruct (py_in_strs o ["Goal"; "Saved"]) as [[]|x]; run_body;
    reflexivity.
Qed.

Lemma step_body (t : table) event :
  step t event = fst (process_event_body event t).
Proof.
  unfold step, process_event.
  by destruct (process_event_body event t) as [t' [[]|x]].
Qed.

(** C3. A Shot event of a player with an id adds exactly 1 to the
    player's [shots]; with outcome "Goal" it adds exactly 1 to [goals] and
    to [shots_on_target]; with outcome "Saved" it adds exactly 1 to
    [shots_on_target] and leaves [goals]; with any other outcome it leaves
    both [goals] and [shots_on_target]. *)
Theorem shot_event_counts (t : table) (event : json) (k : key) :
  event_type_of event = inl (JStr "Shot") ->
  player_key event = Some k ->
  let outcome_name := get3 event "shot" "outcome" "name" in
  let before := entry_at t k in
  exists after,
    step t event !! k = Some after /\
    shots after = shots before + 1 /\
    (outcome_name = inl (JStr "Goal") ->
     goals after = goals before + 1 /\
     shots_on_target after = shots_on_target before + 1) /\
    (outcome_name = inl (JStr "Saved") ->
     shots_on_target after = shots_on_target before + 1 /\
     goals after = goals before) /\
    (outcome_name <> inl (JStr "Goal") ->
     outcome_name <> inl (JStr "Saved") ->
     goals after = goals before /\
     shots_on_target after = shots_on_target before).
Proof.
  intros Hty Hkey outcome_name before.
  destruct (shot_body t event k Hty Hkey) as (nm & _ & Hb).
  rewrite step_body, Hb. subst outcome_name before. clear Hb.
  destruct (get3 event "shot" "outcome" "name") as [o|x].
  - destruct o as [|b|z|s|l|fs]; simpl;
      try (eexists; split; [apply lookup_insert_eq|];
           simpl; repeat split; intros; (congruence || lia)).
    destruct (String.eqb s "Goal") eqn:G; simpl.
    + apply String.eqb_eq in G. subst s.
      eexists; split; [apply lookup_insert_eq|].
      simpl; repeat split; intros; (congruence || lia).
    + destruct (String.eqb s "Saved") eqn:S'; simpl.
      * apply String.eqb_eq in S'. subst s.
        eexists; split; [apply lookup_insert_eq|].
        simpl; repeat split; intros; (congruence || lia).
      * apply String.eqb_neq in G, S'.
        eexists; split; [apply lookup_insert_eq|].
        simpl; repeat split; intros; (congruence || lia).
  - eexists; split; [apply lookup_insert_eq|].
    simpl; repeat split; intros; (congruence || lia).
Qed.

Lemma shot_event_counts_witness :
  event_type_of goal_shot = inl (JStr "Shot") /\
  player_key goal_shot = Some (KNum 1) /\
  exists after,
    step offensive_metrics goal_shot !! KNum 1 = Some after /\
    shots after = 1 /\ goals after = 1 /\ shots_on_target after = 1.
Proof.
  split; [reflexivity|]. split; [reflexivity|].
  destruct (shot_event_counts offensive_metrics goal_shot (KNum 1)
              eq_refl eq_refl) as (after & L & S' & G & _).
  exists after. destruct (G eq_refl) as [G1 G2].
  repeat split; assumption.
Defined.

(** C3 as stated fails on an id that is present and false. The shot of
    the player with id 0 is a Shot event with outcome "Goal" whose id is
    not null, and it leaves every table as it is: no entry has one more
    shot after it. *)
Lemma present_id_not_counted :
  event_type_of shot_by_zero = inl (JStr "Shot") /\
  get2 shot_by_zero "player" "id" = inl (JInt 0) /\
  JInt 0 <> JNull /\
  forall t : table,
    step t shot_by_zero = t /\
    ~ (exists k after,
         step t shot_by_zero !! k = Some after /\
         shots after = shots (entry_at t k) + 1).
Proof.
  split; [reflexivity|]. split; [reflexivity|]. split; [discriminate|].
  intros t.
  assert (step t shot_by_zero = t) as H.
  { rewrite step_body. reflexivity. }
  split; [exact H|].
  intros (k & after & L & S'). rewrite H in L.
  rewrite (entry_at_Some _ _ _ L) in S'. lia.
Qed.

(** A goal and an assist of player 1 and a dribble of player 2. *)
Example end_to_end :
  process_events offensive_metrics
    [goal_shot; assist_pass; complete_dribble]
  = (<[KNum 1 := mk_entry (JStr "A") 1 1 1 1 0 0 0]>
       {[ KNum 2 := mk_entry (JStr "B") 0 0 0 0 1 0 0 ]},
     []).
Proof. reflexivity. Qed.

(** ** What one turn of the loop does to the table *)

Lemma process_event_cases event :
  (exists out, forall t, process_event t event = (t, out)) \/
  (exists k nm d out,
     player_key event = Some k /\
     get2 event "player" "name" = inl nm /\
     d_nonneg d /\
     forall t, process_event t event
               = (<[k := bump d (set_name nm (entry_at t k))]> t, out)).
Proof.
  destruct (body_cases event) as [(r & H) | (k & nm & d & r & K & N & D & H)].
  - left. exists (match r with inl _ => [] | inr x => [(event, x)] end).
    intros t. unfold process_event. rewrite H. by destruct r.
  - right. exists k, nm, d, (match r with inl _ => [] | inr x => [(event, x)] end).
    repeat split; try done.
    intros t. unfold process_event. rewrite H. by destruct r.
Qed.

Lemma step_cases event :
  (forall t, step t event = t) \/
  (exists k nm d,
     player_key event = Some k /\ d_nonneg d /\
     forall t, step t event = <[k := bump d (set_name nm (entry_at t k))]> t).
Proof.
  destruct (process_event_cases event)
    as [(out & H) | (k & nm & d & out & K & _ & D & H)].
  - left. intros t. unfold step. by rewrite H.
  - right. exists k, nm, d. repeat split; try done.
    intros t. unfold step. by rewrite H.
Qed.

(** An event without a usable player id leaves the table as it is. *)
Lemma step_no_key (t : table) event :
  player_key event = None -> step t event = t.
Proof.
  intros N. destruct (step_cases event) as [H | (k & nm & d & K & _)];
    [apply H | congruence].
Qed.

(** The entries of all players but the one of the event stay. *)
Lemma step_other (t : table) event k :
  player_key event <> Some k -> step t event !! k = t !! k.
Proof.
  intros N. destruct (step_cases event) as [H | (k' & nm & d & K & _ & H)].
  - by rewrite H.
  - rewrite H. apply lookup_insert_ne. congruence.
Qed.

(** What the handler prints does not depend on the table. *)
Lemma report_independent (t t' : table) event :
  snd (process_event t event) = snd (process_event t' event).
Proof.
  destruct (process_event_cases event)
    as [(out & H) | (k & nm & d & out & _ & _ & _ & H)];
    by rewrite !H.
Qed.

Lemma run_nil (t : table) : run t [] = t.
Proof. reflexivity. Qed.

Lemma run_cons (t : table) event events :
  run t (event :: events) = run (step t event) events.
Proof.
  unfold run, step. simpl.
  destruct (process_event t event) as [t1 r1]. simpl.
  by destruct (process_events t1 events).
Qed.

Lemma process_events_app (t : table) l1 l2 :
  process_events t (l1 ++ l2)%list =
    (run (run t l1) l2,
     (snd (process_events t l1) ++ snd (process_events (run t l1) l2))%list).
Proof.
  revert t. induction l1 as [|e l1 IH]; intros t.
  - simpl. rewrite run_nil. unfold run.
    by destruct (process_events t l2).
  - rewrite run_cons. simpl. unfold step.
    destruct (process_event t e) as [t1 r1]. simpl.
    rewrite IH. unfold run.
    destruct (process_events t1 l1) as [t2 r2]. simpl.
    by rewrite app_assoc.
Qed.

Lemma run_app (t : table) l1 l2 :
  run t (l1 ++ l2)%list = run (run t l1) l2.
Proof. unfold run at 1. by rewrite process_events_app. Qed.

(** The keys [None], [0] and [""] never enter the table. *)
Lemma run_key_ok (t : table) events k :
  ~ key_ok k -> run t events !! k = t !! k.
Proof.
  intros N. revert t. induction events as [|e l IH]; intros t; [done|].
  rewrite run_cons, IH. apply step_other.
  intros K. by apply player_key_ok in K.
Qed.

(** ** Records without a player *)

Lemma process_event_data_list (t : table) events :
  process_event_data (JList events) t
  = Returned (run t events) (snd (process_events t events)).
Proof.
  unfold process_event_data, run. simpl.
  by destruct (process_events t events).
Qed.

Lemma run_skip (t : table) before event after :
  (forall t', step t' event = t') ->
  run t (before ++ event :: after)%list = run t (before ++ after)%list.
Proof. intros H. by rewrite !run_app, run_cons, H. Qed.

(** C4. A record whose [player.id] is absent is skipped: the table stays
    as it is, so no counter of any player changes; the batch goes on as if
    the record were not there and returns; and the table never gets an
    entry under the key [None]. *)
Theorem absent_player_skipped (t : table) (event : json) :
  (forall v, get2 event "player" "id" = inl v -> v = JNull) ->
  step t event = t /\
  (forall before after,
     exists out,
       process_event_data (JList (before ++ event :: after)%list) t
       = Returned (run t (before ++ after)%list) out) /\
  (forall before after,
     run offensive_metrics (before ++ event :: after)%list !! KNone = None).
Proof.
  intros Habs.
  assert (player_key event = None) as N.
  { unfold player_key.
    destruct (get2 event "player" "id") as [v|] eqn:E; [|done].
    by rewrite (Habs v eq_refl). }
  split; [by apply step_no_key|]. split.
  - intros before after. eexists.
    rewrite process_event_data_list. f_equal.
    apply run_skip. intros t'. by apply step_no_key.
  - intros before after. rewrite run_key_ok; [done|].
    intros (K & _). by apply K.
Qed.

Lemma absent_player_skipped_witness :
  (forall v, get2 whistle "player" "id" = inl v -> v = JNull) /\
  step (run offensive_metrics [goal_shot]) whistle
  = run offensive_metrics [goal_shot].
Proof.
  assert (forall v, get2 whistle "player" "id" = inl v -> v = JNull) as H.
  { intros v E. vm_compute in E. congruence. }
  split; [exact H|].
  exact (proj1 (absent_player_skipped (run offensive_metrics [goal_shot])
                  whistle H)).
Defined.

Lemma assoc_filter_ne k k' fs :
  k <> k' ->
  assoc k (List.filter (fun kv => negb (String.eqb (fst kv) k')) fs)
  = assoc k fs.
Proof.
  intros N. induction fs as [|[k1 v] fs IH]; [done|]. simpl.
  destruct (String.eqb k1 k') eqn:E; simpl.
  - apply String.eqb_eq in E. subst k1. rewrite IH.
    destruct (assoc k fs); [done|].
    by rewrite (proj2 (String.eqb_neq k k') N).
  - by rewrite IH.
Qed.

Lemma assoc_filter_eq k fs :
  assoc k (List.filter (fun kv => negb (String.eqb (fst kv) k)) fs) = None.
Proof.
  induction fs as [|[k1 v] fs IH]; [done|]. simpl.
  destruct (String.eqb k1 k) eqn:E; simpl; [done|].
  rewrite IH. by rewrite String.eqb_sym, E.
Qed.

Lemma falsy_hash_not_ok v k :
  truthy v = false -> py_hash v = inl k -> ~ key_ok k.
Proof.
  intros T H (K1 & K2 & K3).
  destruct v as [|[]|z|s|l|fs]; simpl in *; try discriminate;
    inversion H; subst; try congruence.
  - apply negb_false_iff, Z.eqb_eq in T. congruence.
  - apply negb_false_iff, String.eqb_eq in T. congruence.
Qed.

(** C8. A record whose [player.id] is present but false ([0], [""],
    [false], an empty list or dict) is skipped as one without a player:
    the table stays as it is, the loop body ends as it does on the record
    stripped of its player, and no run gives such an id an entry. *)
Theorem falsy_player_id_skipped (t : table) (event v : json) :
  get2 event "player" "id" = inl v ->
  v <> JNull ->
  truthy v = false ->
  step t event = t /\
  process_event_body event t = process_event_body (without_player event) t /\
  (forall k events,
     py_hash v = inl k -> run offensive_metrics events !! k = None).
Proof.
  intros E NN T. split; [|split].
  - apply step_no_key. unfold player_key. by rewrite E, T.
  - destruct (get2_same_object _ _ _ "name" _ E) as (nm & E').
    destruct event as [| | | | |fs]; try discriminate.
    unfold process_event_body.
    assert (subscript (without_player (JObj fs)) "type"
            = subscript (JObj fs) "type") as ->.
    { simpl. by rewrite assoc_filter_ne. }
    assert (get2 (without_player (JObj fs)) "player" "id" = inl JNull) as ->.
    { unfold get2. simpl. by rewrite assoc_filter_eq. }
    assert (get2 (without_player (JObj fs)) "player" "name" = inl JNull)
      as ->.
    { unfold get2. simpl. by rewrite assoc_filter_eq. }
    rewrite E, E'.
    destruct (subscript (JObj fs) "type") as [ty|x]; [|reflexivity].
    rewrite !bind_lift_inl.
    destruct (subscript ty "name") as [event_type|x]; [|reflexivity].
    rewrite !bind_lift_inl, T. reflexivity.
  - intros k events H. rewrite run_key_ok; [done|].
    by eapply falsy_hash_not_ok.
Qed.

Lemma falsy_player_id_skipped_witness :
  get2 shot_by_zero "player" "id" = inl (JInt 0) /\
  JInt 0 <> JNull /\
  truthy (JInt 0) = false /\
  step offensive_metrics shot_by_zero = offensive_metrics.
Proof.
  split; [reflexivity|]. split; [discriminate|]. split; [reflexivity|].
  exact (proj1 (falsy_player_id_skipped offensive_metrics shot_by_zero
                  (JInt 0) eq_refl
                  (fun H : JInt 0 = JNull =>
                     eq_ind (JInt 0)
                       (fun j => match j with JInt _ => True | _ => False end)
                       I JNull H)
                  eq_refl)).
Defined.

(** ** Malformed records *)

Lemma process_event_raise (t t' : table) event x :
  process_event_body event t = (t', inr x) ->
  process_event t event = (t', [(event, x)]).
Proof. intros H. unfold process_event. by rewrite H. Qed.

Lemma process_events_cons (t : table) event events :
  process_events t (event :: events)
  = (run (step t event) events,
     (snd (process_event t event)
      ++ snd (process_events (step t event) events))%list).
Proof.
  simpl. unfold run, step.
  destruct (process_event t event) as [t1 r1]. simpl.
  by destruct (process_events t1 events).
Qed.



(** A Shot without a [shot] member is no error for the loop body: the
    defaults of [get] answer for it and the shot is counted. *)
Example shot_without_payload :
  process_event offensive_metrics
    (JObj [sample_type "Shot"; sample_player 4 "D"])
  = ({[ KNum 4 := mk_entry (JStr "D") 0 0 1 0 0 0 0 ]}, []).
Proof. reflexivity. Qed.

(** A file whose body is not iterable ends the call with an exception
    that no handler of [process_event_data] covers. *)
Example not_iterable (t : table) :
  process_event_data JNull t = Unhandled t [] TypeError.
Proof. reflexivity. Qed.

(** C9. When the loop body raises after it has changed the entry of the
    record's player, the handler keeps the table as the body left it and
    reports the record: it undoes nothing, whatever the exception. For a
    Shot this is every way the body can raise (a [shot] or an [outcome]
    that is not a dict, an outcome name that cannot be hashed): the name
    was written and [shots] incremented before, and both stay. *)
Theorem increments_before_error_kept :
  (forall (t t' : table) (event : json) (x : exn),
     process_event_body event t = (t', inr x) ->
     process_event t event = (t', [(event, x)])) /\
  (forall (t : table) (event : json) (k : key) (x : exn),
     event_type_of event = inl (JStr "Shot") ->
     player_key event = Some k ->
     snd (process_event_body event t) = inr x ->
     exists nm,
       get2 event "player" "name" = inl nm /\
       process_event t event
       = (<[k := add_shots 1 (set_name nm (entry_at t k))]> t,
          [(event, x)])).
Proof.
  split; [apply process_event_raise|].
  intros t event k x Hty Hkey Hx.
  destruct (shot_body t event k Hty Hkey) as (nm & Hnm & Hb).
  exists nm. split; [done|].
  apply process_event_raise. rewrite Hb in Hx |- *.
  destruct (get3 event "shot" "outcome" "name") as [o|y].
  - unfold py_in_strs in *.
    destruct o as [|b|z|s|l|fs]; simpl in *;
      try discriminate Hx; try (by injection Hx as ->).
    by destruct (_ || _).
  - simpl in Hx. by injection Hx as ->.
Qed.

Lemma increments_before_error_kept_witness :
  event_type_of list_outcome_shot = inl (JStr "Shot") /\
  player_key list_outcome_shot = Some (KNum 3) /\
  snd (process_event_body list_outcome_shot offensive_metrics)
  = inr TypeError /\
  process_event offensive_metrics list_outcome_shot
  = ({[ KNum 3 := mk_entry (JStr "C") 0 0 1 0 0 0 0 ]},
     [(list_outcome_shot, TypeError)]).
Proof.
  do 3 (split; [reflexivity|]).
  destruct (proj2 increments_before_error_kept offensive_metrics
              list_outcome_shot (KNum 3) TypeError eq_refl eq_refl eq_refl)
    as (nm & N & H).
  rewrite H. injection N as <-. reflexivity.
Defined.

(** ** Counters over a run *)

Lemma step_adds event k :
  exists d, d_nonneg d /\
    forall t, counters_of (entry_at (step t event) k)
              = counters_of (bump d (entry_at t k)).
Proof.
  destruct (step_cases event) as [H | (k' & nm & d & _ & D & H)].
  - exists d_zero. split; [apply d_nonneg_zero|].
    intros t. by rewrite H, bump_zero.
  - destruct (decide (k' = k)) as [->|N].
    + exists d. split; [done|]. intros t. by rewrite H, entry_at_insert.
    + exists d_zero. split; [apply d_nonneg_zero|].
      intros t. by rewrite H, entry_at_insert_ne, bump_zero.
Qed.

Lemma run_adds events k :
  exists d, d_nonneg d /\
    forall t, counters_of (entry_at (run t events) k)
              = counters_of (bump d (entry_at t k)).
Proof.
  induction events as [|event events (d2 & D2 & H2)].
  - exists d_zero. split; [apply d_nonneg_zero|].
    intros t. by rewrite run_nil, bump_zero.
  - destruct (step_adds event k) as (d1 & D1 & H1).
    exists (d_plus d1 d2). split; [by apply d_nonneg_plus|].
    intros t. rewrite run_cons, H2, <- bump_plus.
    rewrite !counters_bump. by rewrite H1, counters_bump.
Qed.

Lemma step_keeps (t : table) event k :
  is_Some (t !! k) -> is_Some (step t event !! k).
Proof.
  intros S'. destruct (step_cases event) as [H | (k' & nm & d & _ & _ & H)];
    rewrite H; [done|].
  destruct (decide (k' = k)) as [->|N].
  - rewrite lookup_insert_eq. eauto.
  - by rewrite lookup_insert_ne.
Qed.

Lemma run_keeps (t : table) events k :
  is_Some (t !! k) -> is_Some (run t events !! k).
Proof.
  revert t. induction events as [|e l IH]; intros t S'; [done|].
  rewrite run_cons. by apply IH, step_keeps.
Qed.

Lemma lookup_entry_at (t : table) k :
  is_Some (t !! k) -> t !! k = Some (entry_at t k).
Proof. intros [e H]. unfold entry_at. by rewrite H. Qed.

Lemma step_nonneg (t : table) event :
  all_nonneg t -> all_nonneg (step t event).
Proof.
  intros A. destruct (step_cases event) as [H | (k' & nm & d & _ & D & H)];
    rewrite H; [done|].
  intros k e. destruct (decide (k' = k)) as [->|N].
  - rewrite lookup_insert_eq. intros [= <-].
    apply counters_bump_nonneg; [done|]. rewrite counters_set_name.
    unfold entry_at. destruct (t !! k) as [e0|] eqn:E; simpl.
    + by eapply A.
    + unfold counters_of; simpl; prove_foralls.
  - rewrite lookup_insert_ne by done. apply A.
Qed.

Lemma run_nonneg (t : table) events :
  all_nonneg t -> all_nonneg (run t events).
Proof.
  revert t. induction events as [|e l IH]; intros t A; [done|].
  rewrite run_cons. by apply IH, step_nonneg.
Qed.

(** C7. Every counter of a new entry is 0; processing an event never
    removes an entry and never lowers a counter, whether the entry existed
    or is created by that event, and so over any further events of the
    run; and all counters of all entries are non-negative after every
    event of a run that starts on the empty table. *)
Theorem counters_start_at_zero_and_grow :
  counters_of default_entry = [0; 0; 0; 0; 0; 0; 0] /\
  (forall (t : table) event k,
     Forall2 Z.le (counters_of (entry_at t k))
                  (counters_of (entry_at (step t event) k))) /\
  (forall (t : table) event k e,
     t !! k = Some e ->
     exists e', step t event !! k = Some e' /\
                Forall2 Z.le (counters_of e) (counters_of e')) /\
  (forall (t : table) before after k,
     Forall2 Z.le (counters_of (entry_at (run t before) k))
                  (counters_of (entry_at (run t (before ++ after)%list) k))) /\
  (forall (t : table) event, all_nonneg t -> all_nonneg (step t event)) /\
  (forall events, all_nonneg (run offensive_metrics events)).
Proof.
  split; [reflexivity|].
  assert (forall (t : table) event k,
     Forall2 Z.le (counters_of (entry_at t k))
                  (counters_of (entry_at (step t event) k))) as Hstep.
  { intros t event k. destruct (step_adds event k) as (d & D & H).
    rewrite H. by apply counters_bump_le. }
  split; [exact Hstep|]. split; [|split; [|split]].
  - intros t event k e E.
    exists (entry_at (step t event) k). split.
    + apply lookup_entry_at, step_keeps. by rewrite E.
    + rewrite <- (entry_at_Some t k e E). apply Hstep.
  - intros t before after k. rewrite run_app.
    destruct (run_adds after k) as (d & D & H).
    rewrite H. by apply counters_bump_le.
  - apply step_nonneg.
  - intros events. apply run_nonneg. intros k e.
    unfold offensive_metrics. by rewrite lookup_empty.
Qed.

Lemma counters_start_at_zero_and_grow_witness :
  run offensive_metrics [goal_shot] !! KNum 1
  = Some (mk_entry (JStr "A") 1 0 1 1 0 0 0) /\
  exists e',
    step (run offensive_metrics [goal_shot]) assist_pass !! KNum 1 = Some e' /\
    Forall2 Z.le [1; 0; 1; 1; 0; 0; 0] (counters_of e').
Proof.
  split; [reflexivity|].
  exact (proj1 (proj2 (proj2 counters_start_at_zero_and_grow))
           (run offensive_metrics [goal_shot]) assist_pass (KNum 1)
           (mk_entry (JStr "A") 1 0 1 1 0 0 0) eq_refl).
Defined.

(** ** The table is global: runs accumulate *)

Lemma doubled (d : delta) (e : entry) :
  counters_of e = counters_of (bump d default_entry) ->
  counters_of (bump d e) = List.map (Z.mul 2) (counters_of e).
Proof.
  unfold counters_of, bump; simpl. intros [= -> -> -> -> -> -> ->].
  repeat (apply (f_equal2 cons); [lia|]). reflexivity.
Qed.

(** C10. The table is one global object that every call writes into:
    calling [process_event_data] on a file and then on another gives what
    one call on the two files as one gives, table and reports; calling it
    a second time on the same events, on the table the first call left,
    doubles every counter of every entry; so the second call is not a
    no-op and nothing resets the table between calls. *)
Theorem aggregation_accumulates :
  (forall (t t1 t2 : table) l1 l2 out1 out2,
     process_event_data (JList l1) t = Returned t1 out1 ->
     process_event_data (JList l2) t1 = Returned t2 out2 ->
     process_event_data (JList (l1 ++ l2)%list) t
     = Returned t2 (out1 ++ out2)%list) /\
  (forall events,
     exists t1 out1 t2 out2,
       process_event_data (JList events) offensive_metrics
       = Returned t1 out1 /\
       process_event_data (JList events) t1 = Returned t2 out2 /\
       forall k e,
         t1 !! k = Some e ->
         exists e',
           t2 !! k = Some e' /\
           counters_of e' = List.map (Z.mul 2) (counters_of e)) /\
  (exists t1 t2,
     process_event_data (JList [goal_shot]) offensive_metrics
     = Returned t1 [] /\
     process_event_data (JList [goal_shot]) t1 = Returned t2 [] /\
     counters_of <$> t1 !! KNum 1 = Some [1; 0; 1; 1; 0; 0; 0] /\
     counters_of <$> t2 !! KNum 1 = Some [2; 0; 2; 2; 0; 0; 0]).
Proof.
  split; [|split].
  - intros t t1 t2 l1 l2 out1 out2.
    rewrite !process_event_data_list. intros [= <- <-] [= <- <-].
    by rewrite run_app, process_events_app.
  - intros events. do 4 eexists.
    rewrite !process_event_data_list. split; [reflexivity|].
    split; [reflexivity|].
    intros k e E.
    exists (entry_at (run (run offensive_metrics events) events) k). split.
    + apply lookup_entry_at, run_keeps. by rewrite E.
    + destruct (run_adds events k) as (d & _ & H).
      rewrite H. rewrite (entry_at_Some _ _ _ E).
      apply doubled. rewrite <- (entry_at_Some _ _ _ E), H. reflexivity.
  - do 2 eexists. rewrite !process_event_data_list.
    split; [reflexivity|]. split; [reflexivity|]. split; reflexivity.
Qed.

Lemma aggregation_accumulates_witness :
  exists t1 out1 t2 out2,
    process_event_data (JList [goal_shot; assist_pass]) offensive_metrics
    = Returned t1 out1 /\
    process_event_data (JList [goal_shot; assist_pass]) t1
    = Returned t2 out2 /\
    t1 !! KNum 1 = Some (mk_entry (JStr "A") 1 1 1 1 0 0 0) /\
    exists e',
      t2 !! KNum 1 = Some e' /\ counters_of e' = [2; 2; 2; 2; 0; 0; 0].
Proof.
  destruct (proj1 (proj2 aggregation_accumulates) [goal_shot; assist_pass])
    as (t1 & out1 & t2 & out2 & P1 & P2 & D).
  exists t1, out1, t2, out2. split; [exact P1|]. split; [exact P2|].
  assert (t1 !! KNum 1 = Some (mk_entry (JStr "A") 1 1 1 1 0 0 0)) as E.
  { rewrite process_event_data_list in P1. injection P1 as <- _.
    reflexivity. }
  split; [exact E|]. exact (D (KNum 1) _ E).
Defined.

(** ** Order of the events *)

Lemma same_counters_refl (t : table) : same_counters t t.
Proof. by intros k. Qed.

Lemma same_counters_trans (t1 t2 t3 : table) :
  same_counters t1 t2 -> same_counters t2 t3 -> same_counters t1 t3.
Proof. intros H1 H2 k. by rewrite H1. Qed.

Lemma same_counters_entry_at (t t' : table) k :
  same_counters t t' ->
  counters_of (entry_at t k) = counters_of (entry_at t' k).
Proof.
  intros H. specialize (H k). unfold entry_at.
  destruct (t !! k), (t' !! k); simpl in *; congruence.
Qed.

Lemma step_same_counters (t t' : table) event :
  same_counters t t' -> same_counters (step t event) (step t' event).
Proof.
  intros S'. destruct (step_cases event) as [H | (k & nm & d & _ & _ & H)];
    rewrite !H; [done|].
  intros k0. destruct (decide (k = k0)) as [->|N].
  - rewrite !lookup_insert_eq. simpl. f_equal.
    rewrite !counters_bump, !counters_set_name.
    by rewrite (same_counters_entry_at t t').
  - rewrite !lookup_insert_ne by done. apply S'.
Qed.

Lemma run_same_counters (t t' : table) events :
  same_counters t t' -> same_counters (run t events) (run t' events).
Proof.
  revert t t'. induction events as [|e l IH]; intros t t' S'; [done|].
  rewrite !run_cons. by apply IH, step_same_counters.
Qed.

Lemma bump_swap_counters d1 d2 n1 n2 e :
  counters_of (bump d2 (set_name n2 (bump d1 (set_name n1 e))))
  = counters_of (bump d1 (set_name n1 (bump d2 (set_name n2 e)))).
Proof.
  unfold counters_of, bump; simpl.
  repeat (apply (f_equal2 cons); [lia|]). reflexivity.
Qed.

Lemma step_swap (t : table) a b :
  same_counters (step (step t a) b) (step (step t b) a).
Proof.
  destruct (step_cases a) as [Ha | (ka & na & da & _ & _ & Ha)];
    destruct (step_cases b) as [Hb | (kb & nb & db & _ & _ & Hb)];
    rewrite ?Ha, ?Hb; try apply same_counters_refl.
  destruct (decide (ka = kb)) as [->|N].
  - intros k0. destruct (decide (kb = k0)) as [->|N0].
    + rewrite !lookup_insert_eq, !entry_at_insert. simpl. f_equal.
      apply bump_swap_counters.
    + by rewrite !lookup_insert_ne.
  - rewrite !entry_at_insert_ne by done.
    rewrite insert_insert_ne by done. apply same_counters_refl.
Qed.

Lemma run_permutation (events events' : list json) :
  Permutation events events' ->
  forall t t' : table,
    same_counters t t' -> same_counters (run t events) (run t' events').
Proof.
  induction 1 as [|x l l' _ IH|x y l|l1 l2 l3 _ IH1 _ IH2]; intros t t' S'.
  - done.
  - rewrite !run_cons. by apply IH, step_same_counters.
  - rewrite !run_cons. apply run_same_counters.
    eapply same_counters_trans; [apply step_swap|].
    by apply step_same_counters, step_same_counters.
  - eapply same_counters_trans; [by apply IH1|].
    apply IH2, same_counters_refl.
Qed.

(** C5. Aggregating a permutation of an event sequence gives the same
    players and, for each player, the same seven counters as aggregating
    the sequence itself; the entries can differ in [name] only. *)
Theorem counters_order_independent (t : table) (events events' : list json) :
  Permutation events events' ->
  forall k,
    counters_of <$> (run t events !! k) = counters_of <$> (run t events' !! k).
Proof.
  intros P. apply run_permutation; [done | apply same_counters_refl].
Qed.

Lemma counters_order_independent_witness :
  Permutation [goal_shot; renamed_pass] [renamed_pass; goal_shot] /\
  counters_of <$> (run offensive_metrics [goal_shot; renamed_pass] !! KNum 1)
  = counters_of <$> (run offensive_metrics [renamed_pass; goal_shot] !! KNum 1).
Proof.
  split; [apply perm_swap|].
  exact (counters_order_independent offensive_metrics
           [goal_shot; renamed_pass] [renamed_pass; goal_shot]
           (perm_swap _ _ _) (KNum 1)).
Defined.

(** The name is the one of the last event of the player. *)
Example name_is_last_written :
  name <$> (run offensive_metrics [goal_shot; renamed_pass] !! KNum 1)
  = Some (JStr "A. Player") /\
  name <$> (run offensive_metrics [renamed_pass; goal_shot] !! KNum 1)
  = Some (JStr "A").
Proof. split; reflexivity. Qed.

(** ** The staged load *)

Lemma sql_create_fresh table_name cols (db : database) :
  db !! table_name = None ->
  sql_create table_name cols db
  = inl (<[table_name := mk_relation cols []]> db).
Proof. intros H. unfold sql_create. by rewrite H. Qed.

(** The database and the console at the end of [main_load], by the fate
    of the CSV file, of the bulk load and of the insert. *)
Lemma load_result_cases env cols lines (db : database) :
  load_result env cols lines db =
    if csv_written env then
      let db1 := <[STAGING_TABLE_NAME := mk_relation cols []]>
                   (delete STAGING_TABLE_NAME db) in
      match sql_copy STAGING_TABLE_NAME
              (if server_reads_csv env then Some lines else None) db1 with
      | inl db2 =>
          let db3 := <[PROD_TABLE_NAME := mk_relation cols []]>
                       (delete PROD_TABLE_NAME db2) in
          match sql_insert_select STAGING_TABLE_NAME PROD_TABLE_NAME db3 with
          | inl db4 => (db4, [CopiedOk; InsertedOk])
          | inr e => (db3, [CopiedOk; InsertError e])
          end
      | inr e1 =>
          match sql_insert_select STAGING_TABLE_NAME PROD_TABLE_NAME db with
          | inl db4 => (db4, [CopyError e1; InsertedOk])
          | inr e => (db, [CopyError e1; InsertError e])
          end
      end
    else (db, [OuterError OSError]).
Proof.
  unfold load_result, main_load, try_finally, try_except, bind, lift,
    drop_table, create_table, insert_into_prod_table, execute, connect,
    close, commit, rollback, print, sql_drop.
  cbn [aborted working committed printed fst snd].
  rewrite sql_create_fresh by apply lookup_delete_eq.
  cbn [aborted working committed printed fst snd].
  destruct (csv_written env); [|reflexivity].
  cbn [aborted working committed printed fst snd].
  destruct (sql_copy _ _ _) as [db2|e1];
    cbn [aborted working committed printed fst snd app].
  - rewrite sql_create_fresh by apply lookup_delete_eq.
    cbn [aborted working committed printed fst snd app].
    destruct (sql_insert_select _ _ _) as [db4|e]; reflexivity.
  - destruct (sql_insert_select _ _ _) as [db4|e]; reflexivity.
Qed.

(** A run without failure: staging holds the file as text, production
    the rows with their counters read as integers. *)
Example load_succeeds :
  load_result (mk_environment true true) export_columns [new_line] ∅
  = (<[STAGING_TABLE_NAME :=
         mk_relation export_columns [List.map csv_cell new_line]]>
       {[ PROD_TABLE_NAME :=
            mk_relation export_columns [List.map csv_cell new_line] ]},
     [CopiedOk; InsertedOk]).
Proof. rewrite load_result_cases. reflexivity. Qed.

Lemma staging_is_not_prod : STAGING_TABLE_NAME <> PROD_TABLE_NAME.
Proof. discriminate. Qed.

(** When the bulk load fails the rollback restores the database of the
    previous run, and the insert is then run on it all the same. *)
Lemma load_after_failed_copy cols lines (db : database) :
  load_result (mk_environment true false) cols lines db =
    match sql_insert_select STAGING_TABLE_NAME PROD_TABLE_NAME db with
    | inl db' => (db', [CopyError UndefinedFile; InsertedOk])
    | inr e => (db, [CopyError UndefinedFile; InsertError e])
    end.
Proof.
  rewrite load_result_cases. cbn [csv_written server_reads_csv].
  unfold sql_copy. by rewrite lookup_insert_eq.
Qed.

(** C1, on a database that holds the tables of a previous run, when the
    server cannot open the CSV file: the bulk load fails, the failure is
    printed and the staging write rolled back, and then the insert runs on
    the old staging table and is committed, so the production table holds
    the old row twice. *)
Theorem failed_copy_still_inserts :
  load_result (mk_environment true false) export_columns [new_line]
              previous_db
  = (<[PROD_TABLE_NAME := mk_relation export_columns [old_row; old_row]]>
       previous_db,
     [CopyError UndefinedFile; InsertedOk]).
Proof. rewrite load_after_failed_copy. reflexivity. Qed.

(** C2 as stated fails: the bulk load succeeds, the cast of ["x"] makes
    the insert fail, and the production table afterwards is neither the one
    of the previous run nor absent: it is the new, empty table. *)
Lemma promotion_not_atomic :
  let result :=
    load_result (mk_environment true true) export_columns [bad_line]
                previous_db in
  snd result = [CopiedOk; InsertError (InvalidTextRepresentation "x")] /\
  fst result !! PROD_TABLE_NAME = Some (mk_relation export_columns []) /\
  ~ (fst result !! PROD_TABLE_NAME = previous_db !! PROD_TABLE_NAME \/
     fst result !! PROD_TABLE_NAME = None).
Proof.
  rewrite load_result_cases. vm_compute.
  split; [reflexivity|]. split; [reflexivity|].
  intros [H|H]; discriminate.
Qed.

(** A frame exported from an empty metrics table has the column
    [player_id] only: the bulk load succeeds, the select list of the
    insert does not resolve, and production is left as the new empty
    table. *)
Example empty_frame_fails_insert :
  load_result (mk_environment true true) ["player_id"] [] previous_db
  = (<[STAGING_TABLE_NAME := mk_relation ["player_id"] []]>
       {[ PROD_TABLE_NAME := mk_relation ["player_id"] [] ]},
     [CopiedOk; InsertError (UndefinedColumn "name")]).
Proof. rewrite load_result_cases. reflexivity. Qed.

Lemma sql_copy_missing table_name cols (db : database) x :
  sql_copy table_name None (<[table_name := mk_relation cols []]> db)
  <> inl x.
Proof. unfold sql_copy. by rewrite lookup_insert_eq. Qed.

Lemma sql_copy_fresh table_name cols lines (db db' : database) :
  sql_copy table_name (Some lines)
           (<[table_name := mk_relation cols []]> db) = inl db' ->
  db' = <[table_name :=
            mk_relation cols (List.map (List.map csv_cell) lines)]> db.
Proof.
  unfold sql_copy. rewrite lookup_insert_eq. cbn [columns rows app].
  destruct (forallb _ lines); [|discriminate].
  intros [= <-]. by rewrite insert_insert_eq.
Qed.

(** C2, amended. When the run reports that the insert failed, the rollback
    undoes the insert only. After a successful bulk load the staging table
    and the drop and re-creation of the production table were committed
    before the insert: staging holds the loaded rows and production is the
    new table without any row. After a failed bulk load the database is
    the one the run started on. No row of the failed insert is kept. *)
Theorem failed_insert_undoes_insert_only env cols lines (db : database) e :
  In (InsertError e) (snd (load_result env cols lines db)) ->
  let db' := fst (load_result env cols lines db) in
  (snd (load_result env cols lines db) = [CopiedOk; InsertError e] /\
   db' !! STAGING_TABLE_NAME
   = Some (mk_relation cols (List.map (List.map csv_cell) lines)) /\
   db' !! PROD_TABLE_NAME = Some (mk_relation cols []) /\
   forall n, n <> STAGING_TABLE_NAME -> n <> PROD_TABLE_NAME ->
             db' !! n = db !! n) \/
  (exists e1,
     snd (load_result env cols lines db) = [CopyError e1; InsertError e] /\
     db' = db).
Proof.
  rewrite load_result_cases.
  destruct (csv_written env); cbn zeta.
  2:{ simpl. intros [H|[]]. discriminate. }
  destruct (sql_copy _ _ _) as [db2|e1] eqn:C.
  - destruct (server_reads_csv env); [|by apply sql_copy_missing in C].
    apply sql_copy_fresh in C. subst db2.
    destruct (sql_insert_select _ _ _) as [db4|e'].
    + simpl. intros [H|[H|[]]]; discriminate.
    + simpl. intros [H|[H|[]]]; [discriminate|]. injection H as ->.
      left. split; [reflexivity|].
      pose proof staging_is_not_prod as N.
      split; [|split].
      * rewrite lookup_insert_ne, lookup_delete_ne by done.
        by rewrite lookup_insert_eq.
      * by rewrite lookup_insert_eq.
      * intros n N1 N2.
        rewrite lookup_insert_ne, lookup_delete_ne by done.
        by rewrite lookup_insert_ne, lookup_delete_ne.
  - destruct (sql_insert_select _ _ _) as [db4|e'].
    + simpl. intros [H|[H|[]]]; discriminate.
    + simpl. intros [H|[H|[]]]; [discriminate|]. injection H as ->.
      right. by exists e1.
Qed.

Lemma failed_insert_undoes_insert_only_witness :
  In (InsertError (InvalidTextRepresentation "x"))
     (snd (load_result (mk_environment true true) export_columns [bad_line]
                       previous_db)) /\
  fst (load_result (mk_environment true true) export_columns [bad_line]
                   previous_db) !! PROD_TABLE_NAME
  = Some (mk_relation export_columns []).
Proof.
  assert (In (InsertError (InvalidTextRepresentation "x"))
     (snd (load_result (mk_environment true true) export_columns [bad_line]
                       previous_db))) as H.
  { vm_compute. right. left. reflexivity. }
  split; [exact H|].
  destruct (failed_insert_undoes_insert_only _ _ _ _ _ H)
    as [(_ & _ & P & _) | (e1 & O & _)].
  - exact P.
  - vm_compute in O. discriminate.
Defined.

(** ** The counting rules *)

Lemma py_eq_str_true v s : py_eq_str v s = true -> v = JStr s.
Proof.
  destruct v; simpl; try discriminate. by intros ->%String.eqb_eq.
Qed.

Lemma has_type_of event v ty :
  event_type_of event = inl v -> has_type ty event = py_eq_str v ty.
Proof. unfold has_type. by intros ->. Qed.

Lemma get2_same_fail event a b c x :
  get2 event a b = inr x -> get2 event a c = inr x.
Proof.
  unfold get2. destruct (py_get event a (JObj [])) as [y|]; [|done].
  destruct y; simpl; try done.
Qed.

Ltac entry_eq :=
  match goal with
  | |- context [entry_at ?t ?k] => destruct (entry_at t k)
  end;
  unfold bump, set_name, add_goals, add_assists, add_shots,
    add_shots_on_target, add_dribbles_completed, add_key_passes, add_crosses;
  simpl; f_equal; lia.

Lemma counted_true k event :
  counted k event = true <->
  (exists v, event_type_of event = inl v) /\ player_key event = Some k.
Proof.
  unfold counted. destruct (event_type_of event) as [v|x].
  - rewrite bool_decide_eq_true. split; [eauto | by intros [_ ?]].
  - split; [discriminate | by intros [[v [=]] _]].
Qed.

(** A counted event writes the name and adds [event_delta] to the entry
    of its player, also when the body raises on the way. *)
Lemma step_counted (t : table) event k :
  counted k event = true ->
  exists nm,
    get2 event "player" "name" = inl nm /\
    step t event
    = <[k := bump (event_delta event) (set_name nm (entry_at t k))]> t.
Proof.
  intros ((v & Hty) & Hkey)%counted_true.
  rewrite step_body. unfold event_delta, outcome_in, flag_set.
  rewrite !(has_type_of _ _ _ Hty).
  enter_body Hty Hkey. exists nm. split; [done|].
  destruct (py_eq_str v "Shot") eqn:ES.
  { apply py_eq_str_true in ES. subst v. run_body.
    destruct (get3 event "shot" "outcome" "name") as [o|x]; run_body.
    - destruct o as [|b|z|s|l|fs]; run_body; simpl; run_body;
        try (f_equal; entry_eq).
      destruct (String.eqb s "Goal") eqn:G; run_body; simpl; run_body.
      + apply String.eqb_eq in G. subst s. unfold py_in_strs. simpl.
        run_body. f_equal; entry_eq.
      + unfold py_in_strs. simpl. rewrite G. simpl.
        destruct (String.eqb s "Saved"); simpl; run_body; f_equal; entry_eq.
    - f_equal; entry_eq. }
  destruct (py_eq_str v "Pass") eqn:EP.
  { apply py_eq_str_true in EP. subst v. run_body.
    destruct (get2 event "pass" "goal_assist") as [a|x] eqn:GA.
    - destruct (get2_same_object _ _ _ "shot_assist" _ GA) as (s & ->).
      destruct (get2_same_object _ _ _ "cross" _ GA) as (c & ->).
      run_body.
      destruct (truthy a); run_body; destruct (truthy s); run_body;
        destruct (truthy c); run_body; f_equal; entry_eq.
    - rewrite (get2_same_fail _ _ _ "shot_assist" _ GA).
      rewrite (get2_same_fail _ _ _ "cross" _ GA).
      run_body. f_equal; entry_eq. }
  destruct (py_eq_str v "Dribble") eqn:ED.
  { apply py_eq_str_true in ED. subst v. run_body.
    destruct (get3 event "dribble" "outcome" "name") as [o|x]; run_body.
    - simpl. rewrite orb_false_r.
      destruct (py_eq_str o "Complete"); run_body; f_equal; entry_eq.
    - f_equal; entry_eq. }
  run_body. f_equal. entry_eq.
Qed.

Lemma body_type_error (t : table) event x :
  event_type_of event = inr x -> process_event_body event t = (t, inr x).
Proof.
  unfold event_type_of, process_event_body.
  destruct (subscript event "type") as [ty|y].
  - intros H. rewrite bind_lift_inl. cbn beta. rewrite H. reflexivity.
  - intros [= ->]. reflexivity.
Qed.

Lemma step_uncounted (t : table) event k :
  counted k event = false -> step t event !! k = t !! k.
Proof.
  unfold counted. destruct (event_type_of event) as [v|x] eqn:Hty.
  - intros N%bool_decide_eq_false. by apply step_other.
  - intros _. by rewrite step_body, (body_type_error _ _ _ Hty).
Qed.

(** X1. A Pass event of a player with an id, whose [pass] member is a
    dict (or missing), adds 1 to [assists] when [goal_assist] is true, 1
    to [key_passes] when [shot_assist] is true and 1 to [crosses] when
    [cross] is true, each flag on its own; it leaves the four other
    counters and prints nothing. *)
Theorem pass_event_counts (t : table) (event : json) (k : key)
  (a s c : json) :
  event_type_of event = inl (JStr "Pass") ->
  player_key event = Some k ->
  get2 event "pass" "goal_assist" = inl a ->
  get2 event "pass" "shot_assist" = inl s ->
  get2 event "pass" "cross" = inl c ->
  let before := entry_at t k in
  exists after,
    process_event t event = (<[k := after]> t, []) /\
    assists after = assists before + Z.b2z (truthy a) /\
    key_passes after = key_passes before + Z.b2z (truthy s) /\
    crosses after = crosses before + Z.b2z (truthy c) /\
    goals after = goals before /\
    shots after = shots before /\
    shots_on_target after = shots_on_target before /\
    dribbles_completed after = dribbles_completed before.
Proof.
  intros Hty Hkey Ha Hs Hc before. subst before.
  unfold process_event. enter_body Hty Hkey. rewrite Ha, Hs, Hc. run_body.
  destruct (truthy a); run_body; destruct (truthy s); run_body;
    destruct (truthy c); run_body;
    (eexists; split; [reflexivity|]); simpl; repeat split; lia.
Qed.

Lemma pass_event_counts_witness :
  event_type_of assist_pass = inl (JStr "Pass") /\
  player_key assist_pass = Some (KNum 1) /\
  get2 assist_pass "pass" "goal_assist" = inl (JBool true) /\
  get2 assist_pass "pass" "shot_assist" = inl JNull /\
  get2 assist_pass "pass" "cross" = inl JNull /\
  exists after,
    process_event offensive_metrics assist_pass
    = (<[KNum 1 := after]> offensive_metrics, []) /\
    assists after = 1 /\ key_passes after = 0 /\ crosses after = 0.
Proof.
  do 5 (split; [reflexivity|]).
  destruct (pass_event_counts offensive_metrics assist_pass (KNum 1)
              (JBool true) JNull JNull eq_refl eq_refl eq_refl eq_refl
              eq_refl) as (after & P & A & K & C & _).
  exists after. repeat split; assumption.
Defined.

(** X2. A Pass event of a player with an id whose [pass] member is not a
    dict raises before any counter is touched: the name of the player is
    written, an entry is created if there was none, no counter changes,
    and the record is reported with its error. *)
Theorem pass_payload_error (t : table) (event : json) (k : key) (x : exn) :
  event_type_of event = inl (JStr "Pass") ->
  player_key event = Some k ->
  get2 event "pass" "goal_assist" = inr x ->
  exists nm,
    get2 event "player" "name" = inl nm /\
    process_event t event
    = (<[k := set_name nm (entry_at t k)]> t, [(event, x)]).
Proof.
  intros Hty Hkey Ha. unfold process_event. enter_body Hty Hkey.
  exists nm. split; [done|]. rewrite Ha. run_body. reflexivity.
Qed.

Lemma pass_payload_error_witness :
  event_type_of broken_pass = inl (JStr "Pass") /\
  player_key broken_pass = Some (KNum 1) /\
  get2 broken_pass "pass" "goal_assist" = inr AttributeError /\
  process_event offensive_metrics broken_pass
  = ({[ KNum 1 := mk_entry (JStr "A") 0 0 0 0 0 0 0 ]},
     [(broken_pass, AttributeError)]).
Proof.
  do 3 (split; [reflexivity|]).
  destruct (pass_payload_error offensive_metrics broken_pass (KNum 1)
              AttributeError eq_refl eq_refl eq_refl) as (nm & N & P).
  rewrite P. injection N as <-. reflexivity.
Defined.

(** X3. A Dribble event of a player with an id adds 1 to
    [dribbles_completed] when [dribble.outcome.name] is "Complete" and
    nothing otherwise, also when the payload makes the body raise; the six
    other counters stay. *)
Theorem dribble_event_counts (t : table) (event : json) (k : key) :
  event_type_of event = inl (JStr "Dribble") ->
  player_key event = Some k ->
  let outcome_name := get3 event "dribble" "outcome" "name" in
  let before := entry_at t k in
  exists after,
    step t event !! k = Some after /\
    (outcome_name = inl (JStr "Complete") ->
     dribbles_completed after = dribbles_completed before + 1) /\
    (outcome_name <> inl (JStr "Complete") ->
     dribbles_completed after = dribbles_completed before) /\
    goals after = goals before /\
    assists after = assists before /\
    shots after = shots before /\
    shots_on_target after = shots_on_target before /\
    key_passes after = key_passes before /\
    crosses after = crosses before.
Proof.
  intros Hty Hkey outcome_name before. subst outcome_name before.
  rewrite step_body. enter_body Hty Hkey. run_body.
  destruct (get3 event "dribble" "outcome" "name") as [o|x]; run_body.
  - destruct (py_eq_str o "Complete") eqn:E.
    + apply py_eq_str_true in E. subst o. run_body.
      (eexists; split; [apply lookup_insert_eq|]); simpl;
        repeat split; intros; (congruence || lia).
    + run_body.
      (eexists; split; [apply lookup_insert_eq|]); simpl;
        repeat split; intros; try lia.
      match goal with
      | H : inl o = inl _ |- _ => injection H as ->; discriminate
      end.
  - (eexists; split; [apply lookup_insert_eq|]); simpl;
      repeat split; intros; (congruence || lia).
Qed.

Lemma dribble_event_counts_witness :
  event_type_of complete_dribble = inl (JStr "Dribble") /\
  player_key complete_dribble = Some (KNum 2) /\
  exists after,
    step offensive_metrics complete_dribble !! KNum 2 = Some after /\
    dribbles_completed after = 1.
Proof.
  do 2 (split; [reflexivity|]).
  destruct (dribble_event_counts offensive_metrics complete_dribble (KNum 2)
              eq_refl eq_refl) as (after & L & D & _).
  exists after. split; [exact L | exact (D eq_refl)].
Defined.

(** X4. An event of a player with an id whose type is none of "Shot",
    "Pass" and "Dribble" writes the name of the player, creating the
    entry if there was none, changes no counter and prints nothing. *)
Theorem other_event_refreshes_name (t : table) (event ty : json) (k : key) :
  event_type_of event = inl ty ->
  ty <> JStr "Shot" -> ty <> JStr "Pass" -> ty <> JStr "Dribble" ->
  player_key event = Some k ->
  exists nm,
    get2 event "player" "name" = inl nm /\
    process_event t event = (<[k := set_name nm (entry_at t k)]> t, []).
Proof.
  intros Hty NS NP ND Hkey. unfold process_event. enter_body Hty Hkey.
  exists nm. split; [done|].
  destruct (py_eq_str ty "Shot") eqn:ES;
    [by apply py_eq_str_true in ES|].
  destruct (py_eq_str ty "Pass") eqn:EP;
    [by apply py_eq_str_true in EP|].
  destruct (py_eq_str ty "Dribble") eqn:ED;
    [by apply py_eq_str_true in ED|].
  run_body. reflexivity.
Qed.

Lemma other_event_refreshes_name_witness :
  event_type_of foul = inl (JStr "Foul Committed") /\
  JStr "Foul Committed" <> JStr "Shot" /\
  JStr "Foul Committed" <> JStr "Pass" /\
  JStr "Foul Committed" <> JStr "Dribble" /\
  player_key foul = Some (KNum 5) /\
  process_event offensive_metrics foul
  = ({[ KNum 5 := mk_entry (JStr "E") 0 0 0 0 0 0 0 ]}, []).
Proof.
  assert (JStr "Foul Committed" <> JStr "Shot") as N1 by discriminate.
  assert (JStr "Foul Committed" <> JStr "Pass") as N2 by discriminate.
  assert (JStr "Foul Committed" <> JStr "Dribble") as N3 by discriminate.
  split; [reflexivity|]. do 3 (split; [assumption|]). split; [reflexivity|].
  destruct (other_event_refreshes_name offensive_metrics foul
              (JStr "Foul Committed") (KNum 5) eq_refl N1 N2 N3 eq_refl)
    as (nm & N & P).
  rewrite P. injection N as <-. reflexivity.
Defined.

(** ** Counters as tallies of the events *)

Lemma tally_cons p x l : tally p (x :: l) = Z.b2z (p x) + tally p l.
Proof. unfold tally. simpl. destruct (p x); simpl; lia. Qed.

Lemma delta_indicators k event :
  counted k event = true ->
  d_list (event_delta event)
  = [Z.b2z (is_goal k event); Z.b2z (is_assist k event);
     Z.b2z (is_shot k event); Z.b2z (is_on_target k event);
     Z.b2z (is_completed_dribble k event); Z.b2z (is_key_pass k event);
     Z.b2z (is_cross k event)].
Proof.
  intros C. unfold is_goal, is_on_target, is_assist, is_key_pass, is_cross,
    is_completed_dribble, is_shot, is_pass, event_delta. rewrite C.
  unfold has_type. destruct (event_type_of event) as [v|x]; [|reflexivity].
  destruct (py_eq_str v "Shot") eqn:ES.
  { apply py_eq_str_true in ES. subst v. reflexivity. }
  destruct (py_eq_str v "Pass") eqn:EP.
  { apply py_eq_str_true in EP. subst v. reflexivity. }
  destruct (py_eq_str v "Dribble") eqn:ED; reflexivity.
Qed.

Lemma not_counted_indicators k event :
  counted k event = false ->
  is_goal k event = false /\ is_assist k event = false /\
  is_shot k event = false /\ is_on_target k event = false /\
  is_completed_dribble k event = false /\ is_key_pass k event = false /\
  is_cross k event = false.
Proof.
  intros C. unfold is_goal, is_on_target, is_assist, is_key_pass, is_cross,
    is_completed_dribble, is_shot, is_pass. rewrite C. repeat split.
Qed.

(** X5. After any sequence of events, each counter of a player is what it
    was before plus the number of events of the sequence that count for
    it: [shots] the Shot events of the player, [goals] those with outcome
    "Goal", [shots_on_target] those with outcome "Goal" or "Saved",
    [assists], [key_passes] and [crosses] the Pass events with the flag
    true, [dribbles_completed] the Dribble events with outcome
    "Complete". Events on which the body raises count for what they added
    before raising. *)
Theorem counters_are_tallies (t : table) (events : list json) (k : key) :
  counters_of (entry_at (run t events) k)
  = zip_with Z.add (counters_of (entry_at t k)) (tallies k events).
Proof.
  revert t. induction events as [|event events IH]; intros t.
  - rewrite run_nil. unfold counters_of, tallies, tally. simpl.
    repeat (apply (f_equal2 cons); [lia|]). reflexivity.
  - rewrite run_cons, IH. unfold tallies. rewrite !tally_cons.
    destruct (counted k event) eqn:C.
    + destruct (step_counted t event k C) as (nm & _ & ->).
      rewrite entry_at_insert, counters_bump, counters_set_name.
      rewrite (delta_indicators k event C).
      unfold counters_of. simpl.
      repeat (apply (f_equal2 cons); [lia|]). reflexivity.
    + assert (entry_at (step t event) k = entry_at t k) as ->.
      { unfold entry_at. by rewrite step_uncounted. }
      destruct (not_counted_indicators k event C)
        as (-> & -> & -> & -> & -> & -> & ->).
      unfold counters_of. simpl.
      repeat (apply (f_equal2 cons); [lia|]). reflexivity.
Qed.

Lemma tally_le p q (events : list json) :
  (forall x, p x = true -> q x = true) -> tally p events <= tally q events.
Proof.
  intros H. induction events as [|x l IH]; [done|].
  rewrite !tally_cons. specialize (H x).
  destruct (p x); simpl; [rewrite H by done; simpl; lia|].
  destruct (q x); simpl; lia.
Qed.

Lemma goal_is_on_target k event :
  is_goal k event = true -> is_on_target k event = true.
Proof.
  unfold is_goal, is_on_target, outcome_in.
  destruct (is_shot k event); [|done]. simpl.
  destruct (get3 event "shot" "outcome" "name") as [v|]; [|done]. simpl.
  by destruct (py_eq_str v "Goal").
Qed.

Lemma on_target_is_shot k event :
  is_on_target k event = true -> is_shot k event = true.
Proof. unfold is_on_target. by destruct (is_shot k event). Qed.

(** X6. The loop keeps [goals <= shots_on_target <= shots]: when every
    entry of the table satisfies it, so does every entry after any
    sequence of events. *)
Theorem shot_chain_kept (t : table) (events : list json) :
  (forall k e, t !! k = Some e -> shot_chain e) ->
  forall k e, run t events !! k = Some e -> shot_chain e.
Proof.
  intros Ht k e E.
  assert (shot_chain (entry_at t k)) as [C1 C2].
  { unfold entry_at. destruct (t !! k) as [e0|] eqn:E0; simpl.
    - by eapply Ht.
    - split; simpl; lia. }
  pose proof (counters_are_tallies t events k) as H.
  rewrite (entry_at_Some _ _ _ E) in H.
  unfold counters_of, tallies in H. simpl in H.
  injection H as G _ S' O _ _ _.
  pose proof (tally_le _ _ events (goal_is_on_target k)).
  pose proof (tally_le _ _ events (on_target_is_shot k)).
  unfold shot_chain. lia.
Qed.

Lemma shot_chain_kept_witness :
  (forall k e, seeded !! k = Some e -> shot_chain e) /\
  shot_chain (mk_entry (JStr "A") 2 1 3 2 0 0 0).
Proof.
  assert (forall k e, seeded !! k = Some e -> shot_chain e) as H.
  { intros k e. unfold seeded. destruct (decide (k = KNum 1)) as [->|N].
    - rewrite lookup_singleton_eq. intros [= <-]. split; simpl; lia.
    - rewrite lookup_singleton_ne by done. discriminate. }
  split; [exact H|].
  exact (shot_chain_kept seeded [goal_shot; assist_pass] H
           (KNum 1) (mk_entry (JStr "A") 2 1 3 2 0 0 0) eq_refl).
Defined.

Lemma run_uncounted (t : table) events k :
  Forall (fun event => counted k event = false) events ->
  run t events !! k = t !! k.
Proof.
  intros F. revert t. induction F as [|event events C _ IH]; intros t; [done|].
  by rewrite run_cons, IH, step_uncounted.
Qed.

(** X7. After a sequence of events a key has an entry exactly when it had
    one before or some event of the sequence is counted for it, that is,
    has a readable type and a player id that is true and hashable to the
    key: no other entry is ever created, and none is removed. *)
Theorem entry_iff_counted (t : table) (events : list json) (k : key) :
  is_Some (run t events !! k) <->
  is_Some (t !! k) \/ existsb (counted k) events = true.
Proof.
  revert t. induction events as [|event events IH]; intros t.
  - rewrite run_nil. simpl. split; [by left | by intros [?|?]].
  - rewrite run_cons, IH. simpl.
    destruct (counted k event) eqn:C; simpl.
    + destruct (step_counted t event k C) as (nm & _ & ->).
      rewrite lookup_insert_eq. split; [by right | intros _; left; eauto].
    + by rewrite step_uncounted.
Qed.

(** X8. The name of an entry is the name of the last event counted for
    its player: after a counted event with player name [nm] and any
    further events that are not counted for the player, the entry has the
    name [nm], whatever it was before. *)
Theorem name_last_write_wins (t : table) (before after : list json)
  (event : json) (k : key) (nm : json) :
  counted k event = true ->
  get2 event "player" "name" = inl nm ->
  Forall (fun later => counted k later = false) after ->
  name <$> (run t (before ++ event :: after)%list !! k) = Some nm.
Proof.
  intros C N F. rewrite run_app, run_cons, (run_uncounted _ _ _ F).
  destruct (step_counted (run t before) event k C) as (nm' & N' & ->).
  rewrite lookup_insert_eq. simpl. congruence.
Qed.

Lemma name_last_write_wins_witness :
  counted (KNum 1) renamed_pass = true /\
  get2 renamed_pass "player" "name" = inl (JStr "A. Player") /\
  Forall (fun later => counted (KNum 1) later = false)
         [complete_dribble; whistle] /\
  name <$> (run offensive_metrics
              ([goal_shot] ++ renamed_pass :: [complete_dribble; whistle])%list
            !! KNum 1)
  = Some (JStr "A. Player").
Proof.
  assert (Forall (fun later => counted (KNum 1) later = false)
                 [complete_dribble; whistle]) as F.
  { repeat constructor. }
  split; [reflexivity|]. split; [reflexivity|]. split; [exact F|].
  exact (name_last_write_wins offensive_metrics [goal_shot]
           [complete_dribble; whistle] renamed_pass (KNum 1)
           (JStr "A. Player") eq_refl eq_refl F).
Defined.

(** X9. What the handler prints for a sequence of events does not depend
    on the table the sequence is processed on. *)
Theorem reports_independent_of_table (t t' : table) (events : list json) :
  snd (process_events t events) = snd (process_events t' events).
Proof.
  revert t t'. induction events as [|event events IH]; intros t t'; [done|].
  rewrite !process_events_cons. simpl.
  by rewrite (report_independent t t'), (IH (step t event) (step t' event)).
Qed.

Lemma process_events_strings (t : table) (ss : list string) :
  process_events t (List.map JStr ss)
  = (t, List.map (fun s => (JStr s, TypeError)) ss).
Proof.
  induction ss as [|s ss IH]; [done|]. simpl. by rewrite IH.
Qed.

(** X10. A file whose body is a JSON object or a string is iterated key
    by key or character by character: each of these is reported with a
    [TypeError], the table is left as it is, and the call returns. *)
Theorem non_list_body_only_reports (t : table) :
  (forall fs,
     process_event_data (JObj fs) t
     = Returned t (List.map (fun s => (JStr s, TypeError)) (dict_keys fs))) /\
  (forall s,
     process_event_data (JStr s) t
     = Returned t (List.map (fun c => (JStr c, TypeError)) (chars s))).
Proof.
  split; intros x; unfold process_event_data; simpl;
    by rewrite process_events_strings.
Qed.

(** ** The loop over the files *)

Lemma process_event_data_iter (t : table) body events :
  py_iter body = inl events ->
  process_event_data body t
  = Returned (run t events) (snd (process_events t events)).
Proof.
  intros H. unfold process_event_data, run. rewrite H.
  by destruct (process_events t events).
Qed.

(** X11. When every entry of the listing has a [download_url] and every
    file body can be iterated, the loop completes, and the table it
    leaves is the one a single pass over the events of all files, in the
    order of the listing, gives. *)
Theorem aggregate_usable_files get (t : table) (entries : list json) :
  forallb (usable get) entries = true ->
  exists out,
    aggregate get (JList entries) t
    = Completed (run t (flat_map (events_of get) entries)) out.
Proof.
  unfold aggregate. cbn [py_iter].
  revert t. induction entries as [|res rest IH]; intros t.
  - intros _. by exists [].
  - cbn [forallb flat_map aggregate_entries]. unfold usable at 1.
    intros [U F]%andb_prop. unfold events_of at 1.
    destruct (subscript res "download_url") as [url|]; [|discriminate].
    destruct (py_iter (get url)) as [events|] eqn:I; [|discriminate].
    rewrite (process_event_data_iter _ _ _ I), run_app.
    destruct (IH (run t events) F) as (out & ->). eauto.
Qed.

Lemma aggregate_usable_files_witness :
  forallb (usable sample_get)
          [sample_entry "first.json"; sample_entry "second.json"] = true /\
  exists out,
    aggregate sample_get
      (JList [sample_entry "first.json"; sample_entry "second.json"])
      offensive_metrics
    = Completed (run offensive_metrics [goal_shot; whistle; assist_pass]) out.
Proof.
  split; [reflexivity|].
  exact (aggregate_usable_files sample_get offensive_metrics
           [sample_entry "first.json"; sample_entry "second.json"] eq_refl).
Defined.

(** X12. The first entry of the listing without a [download_url], or
    whose file body cannot be iterated, ends the loop with an exception:
    the table holds the events of the files before it and nothing of the
    entries after it, whatever they are. *)
Theorem aggregate_stops_at_first_failure get (t : table)
  (before : list json) (res : json) :
  forallb (usable get) before = true ->
  usable get res = false ->
  exists out e,
    forall after,
      aggregate get (JList (before ++ res :: after)%list) t
      = Aborted (run t (flat_map (events_of get) before)) out e.
Proof.
  unfold aggregate. cbn [py_iter].
  revert t. induction before as [|res' rest IH]; intros t.
  - intros _. unfold usable.
    cbn [app aggregate_entries flat_map]. rewrite run_nil.
    destruct (subscript res "download_url") as [url|e]; [|eauto].
    unfold process_event_data.
    destruct (py_iter (get url)) as [events|e]; [discriminate|eauto].
  - cbn [forallb flat_map aggregate_entries app]. unfold usable at 1.
    intros [U F]%andb_prop N. unfold events_of at 1.
    destruct (subscript res' "download_url") as [url|]; [|discriminate].
    destruct (py_iter (get url)) as [events|] eqn:I; [|discriminate].
    rewrite (process_event_data_iter _ _ _ I), run_app.
    destruct (IH (run t events) F N) as (out & e & H).
    do 2 eexists. intros after. by rewrite H.
Qed.

Lemma aggregate_stops_at_first_failure_witness :
  forallb (usable sample_get) [sample_entry "first.json"] = true /\
  usable sample_get (sample_entry "missing.json") = false /\
  exists out e,
    aggregate sample_get
      (JList [sample_entry "first.json"; sample_entry "missing.json";
              sample_entry "second.json"])
      offensive_metrics
    = Aborted (run offensive_metrics [goal_shot; whistle]) out e.
Proof.
  split; [reflexivity|]. split; [reflexivity|].
  destruct (aggregate_stops_at_first_failure sample_get offensive_metrics
              [sample_entry "first.json"] (sample_entry "missing.json")
              eq_refl eq_refl) as (out & e & H).
  exists out, e. exact (H [sample_entry "second.json"]).
Defined.

(** ** The text of [create_table] *)

Lemma str_append_cons a (s t : string) : String a s ++ t = String a (s ++ t).
Proof. reflexivity. Qed.

Lemma str_append_assoc (s t u : string) : (s ++ t) ++ u = s ++ (t ++ u).
Proof.
  induction s as [|a s IH]; [reflexivity|].
  by rewrite !str_append_cons, IH.
Qed.

Lemma str_append_nil_r (s : string) : s ++ "" = s.
Proof.
  induction s as [|a s IH]; [reflexivity|].
  by rewrite str_append_cons, IH.
Qed.

Lemma rstrip_keeps c a (s : string) :
  a <> c -> rstrip c (s ++ String a "") = s ++ String a "".
Proof.
  intros N. induction s as [|b s IH].
  - simpl. by rewrite (proj2 (Ascii.eqb_neq a c) N).
  - rewrite str_append_cons. cbn [rstrip]. rewrite IH.
    destruct s; reflexivity.
Qed.

Lemma rstrip_one c a (s : string) :
  a <> c -> rstrip c (s ++ String a (String c "")) = s ++ String a "".
Proof.
  intros N. induction s as [|b s IH].
  - simpl. by rewrite Ascii.eqb_refl, (proj2 (Ascii.eqb_neq a c) N).
  - rewrite !str_append_cons. cbn [rstrip]. rewrite IH.
    destruct s; reflexivity.
Qed.

Lemma concat_cons (x : string) (l : list string) :
  String.concat "" (x :: l) = x ++ String.concat "" l.
Proof. destruct l; simpl; [by rewrite str_append_nil_r | reflexivity]. Qed.

Lemma fold_columns (cols : list string) (sql : string) :
  fold_left
    (fun sql col => sql ++ dquote ++ col ++ dquote ++ " VARCHAR(255),")
    cols sql
  = sql ++ String.concat "" (List.map (fun col => column_def col ++ ",") cols).
Proof.
  revert sql. induction cols as [|col cols IH]; intros sql.
  - simpl. by rewrite str_append_nil_r.
  - cbn [fold_left]. rewrite IH. cbn [List.map].
    rewrite concat_cons. unfold column_def. by rewrite !str_append_assoc.
Qed.

Lemma concat_joined (init : list string) (last : string) :
  String.concat "" (List.map (fun col => column_def col ++ ",") init)
  ++ column_def last
  = String.concat "," (List.map column_def (init ++ [last])%list).
Proof.
  induction init as [|x init IH]; [reflexivity|].
  cbn [List.map app].
  rewrite concat_cons, !str_append_assoc, IH.
  destruct (init ++ [last])%list as [|y l] eqn:E.
  - by destruct init.
  - reflexivity.
Qed.

Lemma concat_snoc (l : list string) (x : string) :
  String.concat "" (l ++ [x])%list = String.concat "" l ++ x.
Proof.
  induction l as [|y l IH]; [reflexivity|].
  cbn [app]. by rewrite !concat_cons, IH, str_append_assoc.
Qed.

Lemma column_def_shape (col : string) :
  column_def col ++ ","
  = (dquote ++ col ++ dquote ++ " VARCHAR(255") ++ String ")" (String "," "")
  /\ column_def col
    = (dquote ++ col ++ dquote ++ " VARCHAR(255") ++ String ")" "".
Proof. unfold column_def. by rewrite !str_append_assoc. Qed.

(** X13. For every table name and every list of columns, the empty one
    included, the statement [create_table] builds is the column
    declarations joined by single commas between the parentheses: the
    [rstrip] removes the one comma after the last declaration and never
    a character of a declaration or of the table name. *)
Theorem create_table_sql_joins (table_name : string) (cols : list string) :
  create_table_sql table_name cols
  = "CREATE TABLE IF NOT EXISTS " ++ table_name ++ " ("
    ++ String.concat "," (List.map column_def cols) ++ ")".
Proof.
  unfold create_table_sql. rewrite fold_columns.
  destruct cols as [|col cols _] using rev_ind.
  - simpl String.concat. rewrite str_append_nil_r.
    change (table_name ++ " (") with (table_name ++ " " ++ String "(" "").
    rewrite <- !str_append_assoc.
    rewrite rstrip_keeps by discriminate.
    by rewrite !str_append_assoc.
  - rewrite <- concat_joined.
    rewrite List.map_app. cbn [List.map]. rewrite concat_snoc.
    destruct (column_def_shape col) as [-> ->].
    rewrite <- !str_append_assoc.
    rewrite rstrip_one by discriminate.
    by rewrite !str_append_assoc.
Qed.

(** ** More on the staged load *)

Lemma sql_insert_select_other staging_table prod_table (db db' : database) :
  sql_insert_select staging_table prod_table db = inl db' ->
  forall n, n <> prod_table -> db' !! n = db !! n.
Proof.
  unfold sql_insert_select.
  destruct (db !! prod_table) as [p|]; [|discriminate].
  destruct (db !! staging_table) as [s|]; [|discriminate].
  destruct (resolve select_list (columns s)) as [sel|]; [|discriminate].
  destruct (_ <? _)%nat; [discriminate|].
  destruct (select_rows sel (rows s)) as [new_rows|]; [|discriminate].
  intros [= <-] n N. by rewrite lookup_insert_ne.
Qed.

Lemma sql_copy_other table_name file (db db' : database) :
  sql_copy table_name file db = inl db' ->
  forall n, n <> table_name -> db' !! n = db !! n.
Proof.
  unfold sql_copy. destruct (db !! table_name) as [r|]; [|discriminate].
  destruct file as [lines|]; [|discriminate].
  destruct (forallb _ lines); [|discriminate].
  intros [= <-] n N. by rewrite lookup_insert_ne.
Qed.

(** X15. A run changes no table of the database but the staging and the
    production table. *)
Theorem load_keeps_other_tables env cols lines (db : database) n :
  n <> STAGING_TABLE_NAME -> n <> PROD_TABLE_NAME ->
  fst (load_result env cols lines db) !! n = db !! n.
Proof.
  intros NS NP. rewrite load_result_cases.
  destruct (csv_written env); [|done]. cbn zeta.
  destruct (sql_copy _ _ _) as [db2|e1] eqn:C.
  - assert (db2 !! n = db !! n) as H2.
    { rewrite (sql_copy_other _ _ _ _ C) by done.
      by rewrite lookup_insert_ne, lookup_delete_ne. }
    destruct (sql_insert_select _ _ _) as [db4|e] eqn:I; simpl.
    + rewrite (sql_insert_select_other _ _ _ _ I) by done.
      by rewrite lookup_insert_ne, lookup_delete_ne.
    + by rewrite lookup_insert_ne, lookup_delete_ne.
  - destruct (sql_insert_select _ _ _) as [db4|e] eqn:I; simpl; [|done].
    by rewrite (sql_insert_select_other _ _ _ _ I).
Qed.

Lemma load_keeps_other_tables_witness :
  "matches" <> STAGING_TABLE_NAME /\
  "matches" <> PROD_TABLE_NAME /\
  fst (load_result (mk_environment true true) export_columns [new_line]
         (<["matches" := mk_relation ["id"] [[Some "1"]]]> previous_db))
    !! "matches"
  = Some (mk_relation ["id"] [[Some "1"]]).
Proof.
  assert ("matches" <> STAGING_TABLE_NAME) as N1 by discriminate.
  assert ("matches" <> PROD_TABLE_NAME) as N2 by discriminate.
  split; [exact N1|]. split; [exact N2|].
  rewrite (load_keeps_other_tables (mk_environment true true) export_columns
             [new_line]
             (<["matches" := mk_relation ["id"] [[Some "1"]]]> previous_db)
             "matches" N1 N2).
  reflexivity.
Defined.

(** X16. When the CSV file cannot be written, the run ends in the outer
    handler: it prints that error only, and the database is the one it
    started on, the staging table of the previous run included, although
    the table had been dropped and created again before the write. *)
Theorem csv_failure_leaves_database env cols lines (db : database) :
  csv_written env = false ->
  load_result env cols lines db = (db, [OuterError OSError]).
Proof. intros H. by rewrite load_result_cases, H. Qed.

Lemma csv_failure_leaves_database_witness :
  csv_written (mk_environment false true) = false /\
  load_result (mk_environment false true) export_columns [new_line]
              previous_db
  = (previous_db, [OuterError OSError]).
Proof.
  split; [reflexivity|].
  exact (csv_failure_leaves_database (mk_environment false true)
           export_columns [new_line] previous_db eq_refl).
Defined.

Lemma copied_iff env cols lines (db : database) :
  In CopiedOk (snd (load_result env cols lines db)) <->
  csv_written env = true /\ server_reads_csv env = true /\
  forallb (fits (length cols)) lines = true.
Proof.
  rewrite load_result_cases.
  destruct (csv_written env); cbn zeta.
  2:{ simpl. split; [intros [[=]|[]] | intros [[=] _]]. }
  unfold sql_copy. rewrite lookup_insert_eq. cbn [columns rows app].
  destruct (server_reads_csv env).
  - destruct (forallb _ lines).
    + destruct (sql_insert_select _ _ _); simpl; split; auto.
    + destruct (sql_insert_select _ _ _); simpl;
        (split; [intros [[=]|[[=]|[]]] | intros (_ & _ & [=])]).
  - destruct (sql_insert_select _ _ _); simpl;
      (split; [intros [[=]|[[=]|[]]] | intros (_ & [=] & _)]).
Qed.

Lemma load_result_copied env cols lines (db : database) :
  csv_written env = true -> server_reads_csv env = true ->
  forallb (fits (length cols)) lines = true ->
  load_result env cols lines db =
    match sql_insert_select STAGING_TABLE_NAME PROD_TABLE_NAME
            (staged cols lines db) with
    | inl db' => (db', [CopiedOk; InsertedOk])
    | inr e => (staged cols lines db, [CopiedOk; InsertError e])
    end.
Proof.
  intros W R F. rewrite load_result_cases, W, R. cbn zeta.
  unfold sql_copy. rewrite lookup_insert_eq. cbn [columns rows app].
  rewrite F, insert_insert_eq. reflexivity.
Qed.

Lemma staged_agree cols lines (db db' : database) :
  (forall n, n <> STAGING_TABLE_NAME -> n <> PROD_TABLE_NAME ->
             db' !! n = db !! n) ->
  staged cols lines db' = staged cols lines db.
Proof.
  intros H. apply map_eq. intros n. unfold staged.
  destruct (decide (n = PROD_TABLE_NAME)) as [->|NP];
    [by rewrite !lookup_insert_eq|].
  rewrite !lookup_insert_ne, !lookup_delete_ne by done.
  destruct (decide (n = STAGING_TABLE_NAME)) as [->|NS];
    [by rewrite !lookup_insert_eq|].
  rewrite !lookup_insert_ne, !lookup_delete_ne by done. by apply H.
Qed.

Lemma numeric_cast s :
  numeric s = true -> cast_int (csv_cell s) = inl (canonical s).
Proof.
  unfold numeric, canonical. by destruct (cast_int (csv_cell s)).
Qed.

Lemma resolve_export :
  resolve select_list export_columns
  = inl [(0, false); (1, false); (2, true); (3, true); (4, true); (5, true);
         (6, true); (7, true); (8, true)]%nat.
Proof. reflexivity. Qed.

Lemma select_promotable sel line :
  resolve select_list export_columns = inl sel ->
  promotable line = true ->
  select_row sel (List.map csv_cell line) = inl (promoted line)
  /\ pad (length export_columns) (promoted line) = promoted line.
Proof.
  rewrite resolve_export. intros [= <-]. unfold promotable, fits.
  intros [[L _]%andb_prop N]%andb_prop. apply Nat.eqb_eq in L.
  do 10 (destruct line as [|? line]; try discriminate L).
  simpl in N.
  repeat match type of N with
         | (_ && _)%bool = true =>
             let H := fresh "N" in
             apply andb_prop in N as [H N]; apply numeric_cast in H
         end.
  split; [|reflexivity].
  unfold promoted. simpl. by rewrite N0, N1, N2, N3, N4, N5, N6.
Qed.

Lemma select_rows_promotable sel lines :
  resolve select_list export_columns = inl sel ->
  forallb promotable lines = true ->
  select_rows sel (List.map (List.map csv_cell) lines)
  = inl (List.map promoted lines)
  /\ List.map (pad (length export_columns)) (List.map promoted lines)
     = List.map promoted lines.
Proof.
  intros R. induction lines as [|line lines IH]; [done|].
  cbn [List.map select_rows forallb]. intros [P F]%andb_prop.
  destruct (select_promotable sel line R P) as [-> ->].
  destruct (IH F) as [-> ->]. done.
Qed.

Lemma insert_on_staged lines (db : database) :
  sql_insert_select STAGING_TABLE_NAME PROD_TABLE_NAME
    (staged export_columns lines db)
  = match select_rows
            [(0, false); (1, false); (2, true); (3, true); (4, true);
             (5, true); (6, true); (7, true); (8, true)]%nat
            (List.map (List.map csv_cell) lines) with
    | inl new_rows =>
        inl (<[PROD_TABLE_NAME :=
                 mk_relation export_columns
                   (List.map (pad (length export_columns)) new_rows)]>
               (staged export_columns lines db))
    | inr e => inr e
    end.
Proof.
  pose proof staging_is_not_prod as N.
  unfold sql_insert_select. unfold staged at 1 2.
  rewrite lookup_insert_eq.
  rewrite lookup_insert_ne, lookup_delete_ne, lookup_insert_eq by done.
  cbn [columns rows]. rewrite resolve_export. reflexivity.
Qed.

Lemma fits_of_promotable lines :
  forallb promotable lines = true ->
  forallb (fits (length export_columns)) lines = true.
Proof.
  induction lines as [|l lines IH]; [done|].
  cbn [forallb]. unfold promotable at 1.
  intros [[-> _]%andb_prop F]%andb_prop. by apply IH.
Qed.

(** X17. A frame with the nine columns of the export, whose lines have
    nine fields within the column width and counters that are empty or
    [int4] numerals, is promoted: the run prints the two successes,
    staging holds the lines as text, and production holds one row per
    line, in order, with id and name as loaded and the counters read as
    integers, and no row of an earlier run. *)
Theorem promotable_frame_is_promoted lines (db : database) :
  forallb promotable lines = true ->
  let result := load_result (mk_environment true true) export_columns lines
                            db in
  snd result = [CopiedOk; InsertedOk] /\
  fst result !! STAGING_TABLE_NAME
  = Some (mk_relation export_columns (List.map (List.map csv_cell) lines)) /\
  fst result !! PROD_TABLE_NAME
  = Some (mk_relation export_columns (List.map promoted lines)).
Proof.
  intros F result. subst result.
  rewrite (load_result_copied (mk_environment true true) _ _ db
             eq_refl eq_refl (fits_of_promotable lines F)).
  rewrite insert_on_staged.
  destruct (select_rows_promotable _ lines resolve_export F) as [-> ->].
  pose proof staging_is_not_prod as N.
  cbn [fst snd]. split; [done|]. split.
  - unfold staged.
    by rewrite !lookup_insert_ne, lookup_delete_ne, lookup_insert_eq.
  - by rewrite lookup_insert_eq.
Qed.

Lemma promotable_frame_is_promoted_witness :
  forallb promotable [new_line] = true /\
  fst (load_result (mk_environment true true) export_columns [new_line]
                   previous_db) !! PROD_TABLE_NAME
  = Some (mk_relation export_columns [List.map csv_cell new_line]).
Proof.
  split; [reflexivity|].
  exact (proj2 (proj2 (promotable_frame_is_promoted [new_line] previous_db
                         eq_refl))).
Defined.

Lemma select_unpromotable line :
  fits (length export_columns) line = true ->
  promotable line = false ->
  exists e,
    select_row [(0, false); (1, false); (2, true); (3, true); (4, true);
                (5, true); (6, true); (7, true); (8, true)]%nat
               (List.map csv_cell line) = inr e.
Proof.
  intros Ft. unfold promotable. rewrite Ft. cbn [andb].
  unfold fits in Ft. apply andb_prop in Ft as [L _]. apply Nat.eqb_eq in L.
  do 10 (destruct line as [|? line]; try discriminate L).
  cbn [skipn forallb]. unfold numeric. intros N.
  with_strategy opaque [csv_cell cast_int] simpl.
  repeat match goal with
         | |- context [cast_int (csv_cell ?s)] =>
             let E := fresh "E" in
             destruct (cast_int (csv_cell s)) eqn:E;
             [try rewrite E in N; cbn iota | cbn iota; eauto]
         end.
  discriminate N.
Qed.

Lemma select_rows_unpromotable lines :
  forallb (fits (length export_columns)) lines = true ->
  forallb promotable lines = false ->
  exists e,
    select_rows [(0, false); (1, false); (2, true); (3, true); (4, true);
                 (5, true); (6, true); (7, true); (8, true)]%nat
                (List.map (List.map csv_cell) lines) = inr e.
Proof.
  induction lines as [|line lines IH]; [discriminate|].
  cbn [forallb List.map select_rows]. intros [Ft F]%andb_prop N.
  destruct (promotable line) eqn:P.
  - destruct (select_promotable _ line resolve_export P) as [-> _].
    destruct (IH F N) as (e & ->). eauto.
  - destruct (select_unpromotable line Ft P) as (e & ->). eauto.
Qed.

Lemma in_drop_blanks c l :
  In c l -> is_blank c = false -> In c (drop_blanks l).
Proof.
  intros I B. induction l as [|a l IH]; [done|]. simpl.
  destruct (is_blank a) eqn:Ba; [|exact I].
  destruct I as [->|I]; [congruence | by apply IH].
Qed.

Lemma uint_of_char_alien a d :
  literal_char a = false -> uint_of_char a d = None.
Proof.
  intros L. destruct d as [d|]; [|reflexivity].
  destruct (uint_of_char a (Some d)) as [d'|] eqn:E; [|reflexivity].
  apply uint_of_char_spec in E.
  repeat (destruct E as [[-> _]|E]; [discriminate L|]).
  destruct E as [-> _]. discriminate L.
Qed.

Lemma uint_of_string_alien c l :
  In c l -> literal_char c = false ->
  NilEmpty.uint_of_string (string_of_list_ascii l) = None.
Proof.
  intros I L. induction l as [|a l IH]; [done|]. simpl.
  destruct I as [->|I].
  - by apply uint_of_char_alien.
  - by rewrite (IH I).
Qed.

Lemma nz_uint_of_string_alien c l :
  In c l -> literal_char c = false ->
  NilZero.uint_of_string (string_of_list_ascii l) = None.
Proof.
  intros I L. unfold NilZero.uint_of_string.
  rewrite (uint_of_string_alien c l I L).
  by destruct (string_of_list_ascii l).
Qed.

(** A field with a character that no integer literal holds is refused by
    the cast. *)
Lemma alien_not_numeric s : alien s = true -> numeric s = false.
Proof.
  unfold alien. intros (c & I & L%negb_true_iff)%existsb_exists.
  assert (is_blank c = false) as B.
  { unfold literal_char in L. by destruct (is_blank c). }
  assert (csv_cell s = Some s) as C.
  { unfold csv_cell. by destruct s. }
  unfold numeric. rewrite C. unfold cast_int, pg_int4_in, trim.
  apply in_drop_blanks with (c := c) in I; [|done].
  apply (proj1 (in_rev _ _)) in I.
  apply in_drop_blanks with (c := c) in I; [|done].
  apply (proj1 (in_rev _ _)) in I.
  destruct (List.rev _) as [|a l]; [done|]. cbn [string_of_list_ascii].
  destruct (Ascii.eqb a "+") eqn:Ep.
  - apply Ascii.eqb_eq in Ep. subst a.
    destruct I as [<-|I]; [discriminate L|].
    by rewrite (nz_uint_of_string_alien c l I L).
  - unfold NilZero.int_of_string.
    destruct (Ascii.eqb a "-") eqn:Em.
    + apply Ascii.eqb_eq in Em. subst a.
      destruct I as [<-|I]; [discriminate L|].
      by rewrite (nz_uint_of_string_alien c l I L).
    + change (String a (string_of_list_ascii l))
        with (string_of_list_ascii (a :: l)).
      by rewrite (nz_uint_of_string_alien c (a :: l) I L).
Qed.

Lemma alien_unpromotable lines :
  existsb (fun line => existsb alien (skipn 2 line)) lines = true ->
  forallb promotable lines = false.
Proof.
  intros (line & I & (f & If & A)%existsb_exists)%existsb_exists.
  apply not_true_is_false. intros F.
  rewrite forallb_forall in F. specialize (F line I).
  unfold promotable in F. apply andb_prop in F as [_ N].
  rewrite forallb_forall in N. specialize (N f If).
  by rewrite (alien_not_numeric f A) in N.
Qed.

(** X18. A frame with the nine columns of the export that is loaded into
    staging but has, in some line, a counter with a character that no
    integer literal of any server version holds (anything but digits,
    signs, blanks, underscores and the letters of the hexadecimal, octal
    and binary notations) is not promoted: the run prints the success of
    the copy and the failure of the insert, and production is left as the
    new table without rows, whatever it held before. *)
Theorem unpromotable_frame_empties_production lines (db : database) :
  forallb (fits (length export_columns)) lines = true ->
  existsb (fun line => existsb alien (skipn 2 line)) lines = true ->
  let result := load_result (mk_environment true true) export_columns lines
                            db in
  (exists e, snd result = [CopiedOk; InsertError e]) /\
  fst result !! PROD_TABLE_NAME = Some (mk_relation export_columns []).
Proof.
  intros F A result. subst result.
  pose proof (alien_unpromotable lines A) as N.
  rewrite (load_result_copied (mk_environment true true) _ _ db
             eq_refl eq_refl F).
  rewrite insert_on_staged.
  destruct (select_rows_unpromotable lines F N) as (e & ->).
  cbn [fst snd]. split; [eauto|]. unfold staged. by rewrite lookup_insert_eq.
Qed.

Lemma unpromotable_frame_empties_production_witness :
  forallb (fits (length export_columns)) [new_line; alien_line] = true /\
  existsb (fun line => existsb alien (skipn 2 line)) [new_line; alien_line]
  = true /\
  fst (load_result (mk_environment true true) export_columns
                   [new_line; alien_line] previous_db) !! PROD_TABLE_NAME
  = Some (mk_relation export_columns []).
Proof.
  split; [reflexivity|]. split; [reflexivity|].
  exact (proj2 (unpromotable_frame_empties_production [new_line; alien_line]
                  previous_db eq_refl eq_refl)).
Defined.

(** X19. Once the bulk load of a run has succeeded, running the load
    again with the same frame gives the same database and the same
    console as the first run: the staging and the production table are
    rebuilt from the frame alone. *)
Theorem rerun_after_copy_is_idempotent env cols lines (db : database) :
  In CopiedOk (snd (load_result env cols lines db)) ->
  load_result env cols lines (fst (load_result env cols lines db))
  = load_result env cols lines db.
Proof.
  intros (W & R & F)%copied_iff.
  assert (staged cols lines (fst (load_result env cols lines db))
          = staged cols lines db) as S'.
  { apply staged_agree. intros n NS NP. by apply load_keeps_other_tables. }
  rewrite (load_result_copied env cols lines
             (fst (load_result env cols lines db)) W R F), S'.
  by rewrite <- (load_result_copied env cols lines db W R F).
Qed.

Lemma rerun_after_copy_is_idempotent_witness :
  In CopiedOk
     (snd (load_result (mk_environment true true) export_columns [new_line]
                       previous_db)) /\
  load_result (mk_environment true true) export_columns [new_line]
    (fst (load_result (mk_environment true true) export_columns [new_line]
                      previous_db))
  = load_result (mk_environment true true) export_columns [new_line]
                previous_db.
Proof.
  assert (In CopiedOk
     (snd (load_result (mk_environment true true) export_columns [new_line]
                       previous_db))) as H.
  { vm_compute. left. reflexivity. }
  split; [exact H|].
  exact (rerun_after_copy_is_idempotent (mk_environment true true)
           export_columns [new_line] previous_db H).
Defined.

(** ** Counters as decimal text *)

Lemma uint_plain d :
  Forall plain (list_ascii_of_string (NilEmpty.string_of_uint d)).
Proof. induction d; simpl; constructor; try done; by split. Qed.

Lemma py_str_int_plain z : Forall plain (list_ascii_of_string (py_str_int z)).
Proof.
  unfold py_str_int, NilZero.string_of_int, NilZero.string_of_uint.
  destruct (Z.to_int z) as [d|d]; destruct d;
    try apply (uint_plain (_ _)); simpl; repeat constructor;
    try apply (uint_plain _).
Qed.

Lemma drop_blanks_plain l : Forall plain l -> drop_blanks l = l.
Proof. intros [|a l' [B _] _]; [done|]. simpl. by rewrite B. Qed.

Lemma trim_plain s : Forall plain (list_ascii_of_string s) -> trim s = s.
Proof.
  intros H. unfold trim. rewrite (drop_blanks_plain _ H).
  rewrite drop_blanks_plain by by apply Forall_rev.
  by rewrite List.rev_involutive, string_of_list_ascii_of_string.
Qed.

Lemma to_int_proper z :
  Z.to_int z <> Decimal.Pos Decimal.Nil /\ Z.to_int z <> Decimal.Neg Decimal.Nil.
Proof.
  destruct z as [|p|p]; simpl; split; try discriminate;
    intros [= H]; by apply Unsigned.to_uint_nonnil in H.
Qed.

(** X20. The cast to [int] reads the decimal text of an integer back as
    that integer when it lies in the [int4] range, from [-2^31] to
    [2^31 - 1], and fails with a range error when it does not. *)
Theorem int4_reads_decimal_text z :
  pg_int4_in (py_str_int z)
  = if (- 2 ^ 31 <=? z) && (z <? 2 ^ 31) then inl z
    else inr NumericValueOutOfRange.
Proof.
  unfold pg_int4_in. rewrite (trim_plain _ (py_str_int_plain z)).
  pose proof (py_str_int_plain z) as P.
  destruct (to_int_proper z) as [N1 N2].
  pose proof (NilZero.isi _ N1 N2) as I. fold (py_str_int z) in I.
  destruct (py_str_int z) as [|a rest] eqn:T; [discriminate I|].
  simpl in P. apply Forall_cons_1 in P as [[_ ->] _].
  rewrite I, DecimalZ.of_to. reflexivity.
Qed.
